(** * OSIRIS sun sensors: the 3d-vis script (OSIRISv2/3d-vis/vis.py)

    A shallow embedding of the visualisation script: the custom
    spherical-to-Cartesian transform, the CSV loader loop, the two list
    comprehensions and the plotting calls.

    The script computes on IEEE binary64 numbers through NumPy.  The
    arithmetic the transform uses is kept behind a small interface
    ([Arith]) with two instances: the real numbers and the binary64
    floats of the kernel, with NumPy's [cos] and [sin] taken as
    parameters.  Statements about the values the script computes are
    read over binary64: one that holds "within floating-point
    tolerance" is proved with an explicit bound, in terms of the
    rounding of the products and of the accuracy of libm at the angles;
    the instance over the reals gives the exact identities that the
    bounds are measured against.  The floating-point warnings of NumPy
    are modelled apart, as a state monad over the warning registry. *)

From Stdlib Require Import Reals Lra Floats ZArith List Ascii String.
From stdpp Require Import base strings gmap list.

Set Default Proof Using "Type".

(** ** Arithmetic interface *)

(** What the transform needs from its number type: the product, and
    NumPy's [radians], [cos] and [sin]. *)
Class Arith (F : Type) := {
  fmul : F -> F -> F;
  np_radians : F -> F;
  np_cos : F -> F;
  np_sin : F -> F
}.

Declare Scope arith_scope.
Delimit Scope arith_scope with ar.
Infix "*" := fmul : arith_scope.

(** ** The transform (vis.py, lines 7-18) *)

Section Transform.
Context {F : Type} `{Arith F}.
Local Open Scope arith_scope.

Definition spherical_to_cartesian_custom (R theta_deg phi_deg : F) : F * F * F :=
  let theta := np_radians theta_deg in
  let phi := np_radians phi_deg in
  let x := R * np_cos theta * np_cos phi in
  let y := R * np_cos theta * np_sin phi in
  let z := R * np_sin theta in
  (x, y, z).

(** The formula as the specification words it. *)
Definition custom_convention (R theta phi : F) : F * F * F :=
  (R * np_cos (np_radians theta) * np_cos (np_radians phi),
   R * np_cos (np_radians theta) * np_sin (np_radians phi),
   R * np_sin (np_radians theta)).

(** The ISO physics convention, for comparison only: polar angle from
    +Z, so [z] goes with the cosine. *)
Definition iso_convention (R theta phi : F) : F * F * F :=
  (R * np_sin (np_radians theta) * np_cos (np_radians phi),
   R * np_sin (np_radians theta) * np_sin (np_radians phi),
   R * np_cos (np_radians theta)).
End Transform.

(** ** Instance: exact real arithmetic *)

Module Exact.
Local Open Scope R_scope.

(** [npy_deg2rad]: the argument times pi/180. *)
Definition radians (x : R) : R := x * (PI / 180).

#[global] Instance real_arith : Arith R :=
  {| fmul := Rmult; np_radians := radians; np_cos := cos; np_sin := sin |}.

Definition norm2 (p : R * R * R) : R :=
  let '(x, y, z) := p in x * x + y * y + z * z.
End Exact.

(** ** Instance: IEEE binary64 *)

Module Binary64.
Local Open Scope float_scope.

(** NumPy's elementary functions on doubles come from the platform's
    libm; they are parameters of the instance. *)
Record LibM := {
  m_cos : float -> float;
  m_sin : float -> float
}.

(** The part of their behaviour that C99 Annex F fixes (F.10.1): a
    finite argument gives a finite result, and a NaN or an infinity
    gives NaN. *)
Record conforms (L : LibM) : Prop := {
  cos_finite : forall x, is_finite x = true -> is_finite (m_cos L x) = true;
  sin_finite : forall x, is_finite x = true -> is_finite (m_sin L x) = true;
  cos_not_finite : forall x, is_finite x = false -> is_nan (m_cos L x) = true;
  sin_not_finite : forall x, is_finite x = false -> is_nan (m_sin L x) = true
}.

(** [NPY_PI] and the constant of [npy_deg2rad], computed as the C
    compiler does, in double precision. *)
Definition NPY_PI : float := 0x1.921fb54442d18p+1.
Definition DEG2RAD : float := NPY_PI / 180.

Definition radians (x : float) : float := x * DEG2RAD.

Definition float_arith (L : LibM) : Arith float :=
  {| fmul := PrimFloat.mul; np_radians := radians;
     np_cos := m_cos L; np_sin := m_sin L |}.

(** The transform on doubles. *)
Definition transform (L : LibM) (R theta_deg phi_deg : float) : float * float * float :=
  @spherical_to_cartesian_custom float (float_arith L) R theta_deg phi_deg.

(** Python's [==] between triples of floats. *)
Definition triple_eqb (p q : float * float * float) : bool :=
  (p.1.1 =? q.1.1) && (p.1.2 =? q.1.2) && (p.2 =? q.2).

(** The classes of the specification's floats that the proofs tell apart. *)
Definition sf_finite (x : spec_float) : bool :=
  match x with
  | S754_zero _ | S754_finite _ _ _ => true
  | S754_infinity _ | S754_nan => false
  end.

Definition sf_zero (x : spec_float) : bool :=
  match x with
  | S754_zero _ => true
  | _ => false
  end.

(** The coarsest libm that conforms: on a finite argument the cosine is
    1 and the sine 0, their values at 0. *)
Definition coarse : LibM :=
  {| m_cos := fun x => if is_finite x then 1 else nan;
     m_sin := fun x => if is_finite x then 0 else nan |}.
End Binary64.

(** ** The script's state and effects *)

(** The exceptions the script can raise.  [ValueError] has two sites:
    [float] on a string that is no number, and the unpacking of
    the starred [zip] of the points into three names when there are none;
    [TypeError] is [float(None)], the cell of a short row. *)
Inductive exn :=
| FileNotFoundError
| KeyError (key : string)
| ValueError_float (cell : string)
| TypeError_float
| ValueError_unpack.

(** The calls into matplotlib, in the order they are issued. *)
Inductive mpl_call (F : Type) :=
| Figure (width height : nat)
| AddSubplot (code : nat) (projection : string)
| Scatter (xs ys zs : list F) (c label marker : string)
| Plot (xs ys zs : list F) (color linestyle linewidth : string)
| SetXLabel (s : string)
| SetYLabel (s : string)
| SetZLabel (s : string)
| SetTitle (s : string)
| Legend
| TightLayout
| Show.
Arguments Figure {F}. Arguments AddSubplot {F}. Arguments Scatter {F}.
Arguments Plot {F}. Arguments SetXLabel {F}. Arguments SetYLabel {F}.
Arguments SetZLabel {F}. Arguments SetTitle {F}. Arguments Legend {F}.
Arguments TightLayout {F}. Arguments Show {F}.

(** The module-level lists of line 23 and the figure drawn so far. *)
Record store (F : Type) := Store {
  R_list : list F;
  theta_test : list F;
  phi_test : list F;
  theta_real : list F;
  phi_real : list F;
  figure : list (mpl_call F)
}.
Arguments Store {F}. Arguments R_list {F}. Arguments theta_test {F}.
Arguments phi_test {F}. Arguments theta_real {F}. Arguments phi_real {F}.
Arguments figure {F}.

Inductive outcome (A : Type) :=
| Return (a : A)
| Raise (e : exn).
Arguments Return {A}. Arguments Raise {A}.

(** A computation runs from a store to an outcome and the store it
    leaves; an exception keeps the store reached when it was raised. *)
Definition M (F A : Type) : Type := store F -> outcome A * store F.

#[export] Instance M_ret {F} : MRet (M F) :=
  fun A (a : A) st => (Return a, st).

#[export] Instance M_bind {F} : MBind (M F) :=
  fun A B (k : A -> M F B) (c : M F A) st =>
    match c st with
    | (Return a, st') => k a st'
    | (Raise e, st') => (Raise e, st')
    end.

Definition raise {F A} (e : exn) : M F A := fun st => (Raise e, st).

Definition get {F} : M F (store F) := fun st => (Return st, st).

Definition modify {F} (f : store F -> store F) : M F unit :=
  fun st => (Return tt, f st).

(** [for x in l: body(x)] *)
Fixpoint for_each {F A} (body : A -> M F unit) (l : list A) : M F unit :=
  match l with
  | [] => mret tt
  | x :: l' => body x;; for_each body l'
  end.

(** [[f(x) for x in l]] *)
Fixpoint comprehension {F A B} (f : A -> M F B) (l : list A) : M F (list B) :=
  match l with
  | [] => mret []
  | x :: l' => y ← f x; ys ← comprehension f l'; mret (y :: ys)
  end.

(** Python's [zip] of three lists stops at the shortest. *)
Fixpoint zip3 {A B C} (la : list A) (lb : list B) (lc : list C) : list (A * B * C) :=
  match la, lb, lc with
  | a :: la', b :: lb', c :: lc' => (a, b, c) :: zip3 la' lb' lc'
  | _, _, _ => []
  end.

(** ** The CSV reader *)

(** A row as [csv.DictReader] yields it: the cells under their header
    names; [None] is the [restval] a short row gets for its missing
    cells.  Cells beyond the header go under the key [None], which no
    lookup by name reaches, so they are left out. *)
Definition dict_row (fieldnames row : list string) : gmap string (option string) :=
  let d := foldl (fun d kv => <[kv.1 := Some kv.2]> d) ∅ (zip fieldnames row) in
  foldl (fun d k => <[k := None]> d) d (drop (length row) fieldnames).

(** [csv.DictReader(f)] over the records of the file as [csv.reader]
    splits them: the first record is the header, blank records after it
    are skipped. *)
Definition DictReader (records : list (list string)) : list (gmap string (option string)) :=
  match records with
  | [] => []
  | fieldnames :: rest => dict_row fieldnames <$> filter (fun r => r ≠ []) rest
  end.

(** The five header names, in the order the loop reads them. *)
Definition col_R : string := "R (cm)".
Definition col_test_theta : string := "Test θ (°)".
Definition col_test_phi : string := "Test φ (°)".
Definition col_real_theta : string := "Real θ (°)".
Definition col_real_phi : string := "Real φ (°)".

Definition required : list string :=
  [col_R; col_test_theta; col_test_phi; col_real_theta; col_real_phi].

(** ** The script (vis.py, lines 20-63) *)

Section Script.
Context {F : Type} `{Arith F}.

(** Python's [float] on a string: the number it denotes, if any. *)
Variable py_float : string -> option F.

Definition point : Type := F * F * F.

(** [row[key]] *)
Definition getitem (row : gmap string (option string)) (key : string) : M F (option string) :=
  match row !! key with
  | Some v => mret v
  | None => raise (KeyError key)
  end.

(** [float(v)] *)
Definition float_of (v : option string) : M F F :=
  match v with
  | None => raise TypeError_float
  | Some s =>
      match py_float s with
      | Some x => mret x
      | None => raise (ValueError_float s)
      end
  end.

Definition R_list_append (x : F) : M F unit :=
  modify (fun st => Store (R_list st ++ [x]) (theta_test st) (phi_test st)
                          (theta_real st) (phi_real st) (figure st)).
Definition theta_test_append (x : F) : M F unit :=
  modify (fun st => Store (R_list st) (theta_test st ++ [x]) (phi_test st)
                          (theta_real st) (phi_real st) (figure st)).
Definition phi_test_append (x : F) : M F unit :=
  modify (fun st => Store (R_list st) (theta_test st) (phi_test st ++ [x])
                          (theta_real st) (phi_real st) (figure st)).
Definition theta_real_append (x : F) : M F unit :=
  modify (fun st => Store (R_list st) (theta_test st) (phi_test st)
                          (theta_real st ++ [x]) (phi_real st) (figure st)).
Definition phi_real_append (x : F) : M F unit :=
  modify (fun st => Store (R_list st) (theta_test st) (phi_test st)
                          (theta_real st) (phi_real st ++ [x]) (figure st)).

(** A call into matplotlib is recorded at the end of the figure.  What
    matplotlib does with the call, and the errors it may raise on the
    numbers it is given, are not part of the model. *)
Definition mpl (c : mpl_call F) : M F unit :=
  modify (fun st => Store (R_list st) (theta_test st) (phi_test st)
                          (theta_real st) (phi_real st) (figure st ++ [c])).

(** The body of the loader loop (lines 28-32). *)
Definition load_row (row : gmap string (option string)) : M F unit :=
  v ← getitem row col_R; x ← float_of v; R_list_append x;;
  v ← getitem row col_test_theta; x ← float_of v; theta_test_append x;;
  v ← getitem row col_test_phi; x ← float_of v; phi_test_append x;;
  v ← getitem row col_real_theta; x ← float_of v; theta_real_append x;;
  v ← getitem row col_real_phi; x ← float_of v; phi_real_append x.

(** Lines 25-32; [None] is a file that cannot be opened. *)
Definition load (file : option (list (list string))) : M F unit :=
  match file with
  | None => raise FileNotFoundError
  | Some records => for_each load_row (DictReader records)
  end.

(** A call of the transform from the script. *)
Definition call_transform (a : F * F * F) : M F point :=
  let '(R, t, p) := a in mret (spherical_to_cartesian_custom R t p).

(** Lines 35-36. *)
Definition convert : M F (list point * list point) :=
  st ← get;
  test_xyz ← comprehension call_transform (zip3 (R_list st) (theta_test st) (phi_test st));
  real_xyz ← comprehension call_transform (zip3 (R_list st) (theta_real st) (phi_real st));
  mret (test_xyz, real_xyz).

(** [a, b, c = zip( *points )]: with no point the starred [zip] yields
    nothing and the unpacking raises. *)
Definition unpack3 (points : list point) : M F (list F * list F * list F) :=
  match points with
  | [] => raise ValueError_unpack
  | _ => mret (fmap (fun p => p.1.1) points, fmap (fun p => p.1.2) points,
               fmap (fun p => p.2) points)
  end.

(** One connecting segment (line 54). *)
Definition segment (pair : point * point) : mpl_call F :=
  let '((xt, yt, zt), (xr, yr, zr)) := pair in
  Plot [xt; xr] [yt; yr] [zt; zr] "gray" "--" "0.5".

(** Lines 53-54. *)
Definition connect (test_xyz real_xyz : list point) : M F unit :=
  for_each (fun pair => mpl (segment pair)) (zip test_xyz real_xyz).

(** Lines 39-63: unpacking and plotting. *)
Definition render (test_xyz real_xyz : list point) : M F unit :=
  '(x_test, y_test, z_test) ← unpack3 test_xyz;
  '(x_real, y_real, z_real) ← unpack3 real_xyz;
  mpl (Figure 10 8);;
  mpl (AddSubplot 111 "3d");;
  mpl (Scatter x_test y_test z_test "blue" "Test Points" "o");;
  mpl (Scatter x_real y_real z_real "red" "Real Points" "^");;
  connect test_xyz real_xyz;;
  mpl (SetXLabel "X (cm)");;
  mpl (SetYLabel "Y (cm)");;
  mpl (SetZLabel "Z (cm)");;
  mpl (SetTitle "3D Comparison of Spherical Points (Test vs Real)");;
  mpl Legend;;
  mpl TightLayout;;
  mpl Show.

Definition script (file : option (list (list string))) : M F unit :=
  load file;;
  '(test_xyz, real_xyz) ← convert;
  render test_xyz real_xyz.

(** What reading one cell comes to: [float(row[key])]. *)
Definition cell (row : gmap string (option string)) (key : string) : outcome F :=
  match row !! key with
  | None => Raise (KeyError key)
  | Some None => Raise TypeError_float
  | Some (Some s) =>
      match py_float s with
      | Some x => Return x
      | None => Raise (ValueError_float s)
      end
  end.

(** The number in a cell, when the cell holds one. *)
Definition parsed (row : gmap string (option string)) (key : string) : option F :=
  match cell row key with
  | Return x => Some x
  | Raise _ => None
  end.

(** The exception of the first cell, among [keys] in order, that does
    not give a number. *)
Fixpoint first_failure (row : gmap string (option string)) (keys : list string) : option exn :=
  match keys with
  | [] => None
  | k :: keys' =>
      match cell row k with
      | Raise e => Some e
      | Return _ => first_failure row keys'
      end
  end.

(** A row all of whose required cells hold numbers. *)
Definition row_ok (row : gmap string (option string)) : Prop :=
  first_failure row required = None.

(** The store holds, column by column and in row order, the numbers of
    the rows. *)
Definition loaded (rows : list (gmap string (option string))) (st : store F) : Prop :=
  Forall2 (fun row x => parsed row col_R = Some x) rows (R_list st)
  /\ Forall2 (fun row x => parsed row col_test_theta = Some x) rows (theta_test st)
  /\ Forall2 (fun row x => parsed row col_test_phi = Some x) rows (phi_test st)
  /\ Forall2 (fun row x => parsed row col_real_theta = Some x) rows (theta_real st)
  /\ Forall2 (fun row x => parsed row col_real_phi = Some x) rows (phi_real st).

(** Each list holds the numbers of a prefix of the rows, in row order:
    nothing but parsed cells ever enters a list. *)
Definition prefix_loaded (rows : list (gmap string (option string))) (st : store F) : Prop :=
  Forall2 (fun row x => parsed row col_R = Some x)
          (take (length (R_list st)) rows) (R_list st)
  /\ Forall2 (fun row x => parsed row col_test_theta = Some x)
             (take (length (theta_test st)) rows) (theta_test st)
  /\ Forall2 (fun row x => parsed row col_test_phi = Some x)
             (take (length (phi_test st)) rows) (phi_test st)
  /\ Forall2 (fun row x => parsed row col_real_theta = Some x)
             (take (length (theta_real st)) rows) (theta_real st)
  /\ Forall2 (fun row x => parsed row col_real_phi = Some x)
             (take (length (phi_real st)) rows) (phi_real st).

(** The values of the two comprehensions of lines 35-36. *)
Definition transform3 (a : F * F * F) : point :=
  spherical_to_cartesian_custom a.1.1 a.1.2 a.2.

Definition test_points (st : store F) : list point :=
  transform3 <$> zip3 (R_list st) (theta_test st) (phi_test st).

Definition real_points (st : store F) : list point :=
  transform3 <$> zip3 (R_list st) (theta_real st) (phi_real st).

(** The store after the calls [cs] were added to the figure. *)
Definition draw (cs : list (mpl_call F)) (st : store F) : store F :=
  Store (R_list st) (theta_test st) (phi_test st) (theta_real st) (phi_real st)
        (figure st ++ cs).

(** Everything [render] draws for given points, in order. *)
Definition drawing (test_xyz real_xyz : list point) : list (mpl_call F) :=
  [Figure 10 8; AddSubplot 111 "3d";
   Scatter (fmap (fun p => p.1.1) test_xyz) (fmap (fun p => p.1.2) test_xyz)
           (fmap (fun p => p.2) test_xyz) "blue" "Test Points" "o";
   Scatter (fmap (fun p => p.1.1) real_xyz) (fmap (fun p => p.1.2) real_xyz)
           (fmap (fun p => p.2) real_xyz) "red" "Real Points" "^"]
  ++ (segment <$> zip test_xyz real_xyz)
  ++ [SetXLabel "X (cm)"; SetYLabel "Y (cm)"; SetZLabel "Z (cm)";
      SetTitle "3D Comparison of Spherical Points (Test vs Real)";
      Legend; TightLayout; Show].

(** The store the script starts from (line 23). *)
Definition initial : store F := Store [] [] [] [] [] [].

(** The plot calls among the matplotlib calls. *)
Definition is_plot (c : mpl_call F) : bool :=
  match c with Plot _ _ _ _ _ _ => true | _ => false end.

Definition segments (calls : list (mpl_call F)) : list (mpl_call F) :=
  List.filter is_plot calls.
End Script.

(** ** Sample inputs *)

Module Sample.

(** Python's [float] on plain decimal numerals such as "10" or "45",
    which it reads as the integer they spell; every other string is
    rejected here. *)
Definition digit (c : ascii) : option Z :=
  let n := Z.of_nat (nat_of_ascii c) in
  if ((48 <=? n) && (n <=? 57))%Z then Some (n - 48)%Z else None.

Fixpoint numeral (s : string) (acc : Z) : option Z :=
  match s with
  | EmptyString => Some acc
  | String c s' =>
      match digit c with
      | Some d => numeral s' (10 * acc + d)
      | None => None
      end
  end.

Definition decimal (s : string) : option R :=
  match s with
  | EmptyString => None
  | _ => IZR <$> numeral s 0
  end.

(** Two measurements under the full header, with a blank record between. *)
Definition table : list (list string) :=
  [ required;
    ["10"; "30"; "45"; "32"; "44"];
    [];
    ["12"; "60"; "90"; "61"; "88"] ].

(** The header lost its last column. *)
Definition table_renamed : list (list string) :=
  [ [col_R; col_test_theta; col_test_phi; col_real_theta; "Real phi"];
    ["10"; "30"; "45"; "32"; "44"] ].

(** The same header over no data at all. *)
Definition table_renamed_empty : list (list string) :=
  [ [col_R; col_test_theta; col_test_phi; col_real_theta; "Real phi"] ].

(** A cell that is no number. *)
Definition table_bad_cell : list (list string) :=
  [ required;
    ["10"; "30"; "45"; "32"; "44"];
    ["12"; "sixty"; "90"; "61"; "88"] ].

(** A short record before the cell that is no number. *)
Definition table_short_row : list (list string) :=
  [ required;
    ["10"];
    ["12"; "sixty"; "90"; "61"; "88"] ].

(** A cell that is no number under a header without the radius column. *)
Definition table_no_radius : list (list string) :=
  [ [col_test_theta; col_test_phi; col_real_theta; col_real_phi];
    ["sixty"; "90"; "61"; "88"] ].

End Sample.

(** ** Relations between stores *)

Section Stores.
Context {F : Type}.

(** Every list of [st'] starts with the list of [st], and the figure is
    the same. *)
Definition extends (st st' : store F) : Prop :=
  R_list st `prefix_of` R_list st'
  /\ theta_test st `prefix_of` theta_test st'
  /\ phi_test st `prefix_of` phi_test st'
  /\ theta_real st `prefix_of` theta_real st'
  /\ phi_real st `prefix_of` phi_real st'
  /\ figure st' = figure st.

(** The five lists are equally long. *)
Definition aligned (st : store F) : Prop :=
  length (theta_test st) = length (R_list st)
  /\ length (phi_test st) = length (R_list st)
  /\ length (theta_real st) = length (R_list st)
  /\ length (phi_real st) = length (R_list st).

(** The five lists are in step up to the row being read: each is at most
    as long as the one filled before it, and the first is at most one
    longer than the last. *)
Definition in_step (st : store F) : Prop :=
  length (phi_real st) <= length (theta_real st)
  /\ length (theta_real st) <= length (phi_test st)
  /\ length (phi_test st) <= length (theta_test st)
  /\ length (theta_test st) <= length (R_list st)
  /\ length (R_list st) <= length (phi_real st) + 1.
End Stores.

(** ** The real value of a double *)

Module Binary64R.
Local Open Scope R_scope.

(** The real number a finite double stands for; zeros, and by
    convention infinities and NaN, are sent to 0. *)
Definition SF2R (x : spec_float) : R :=
  match x with
  | S754_finite s m e => (if s then -1 else 1) * IZR (Zpos m) * powerRZ 2 e
  | _ => 0
  end.

Definition B2R (x : float) : R := SF2R (Prim2SF x).

(** A normal double: finite, not zero, with a significand of the full
    53 bits. *)
Definition sf_normal (x : spec_float) : bool :=
  match x with
  | S754_finite _ m _ => Z.eqb (Zpos (digits2_pos m)) prec
  | _ => false
  end.

Definition is_normal (x : float) : bool := sf_normal (Prim2SF x).

(** The product [a * b] neither overflows nor underflows: it is a normal
    double, or one of the factors is a zero and the product is finite. *)
Definition no_flow (a b : float) : bool :=
  is_normal (a * b)%float || (is_finite (a * b)%float && (is_zero a || is_zero b)).

(** The relative error of one rounded product that does not underflow,
    as it is used below: two units in the last place. *)
Definition u : R := / IZR (2 ^ 51).

(** The squared norm of a triple of doubles, in exact arithmetic. *)
Definition norm2 (p : float * float * float) : R :=
  B2R p.1.1 * B2R p.1.1 + B2R p.1.2 * B2R p.1.2 + B2R p.2 * B2R p.2.

(** libm's cosine and sine at [t] satisfy the Pythagorean identity up
    to [eta]. *)
Definition pythagorean (L : Binary64.LibM) (eta : R) (t : float) : Prop :=
  Rabs (B2R (Binary64.m_cos L t) * B2R (Binary64.m_cos L t)
        + B2R (Binary64.m_sin L t) * B2R (Binary64.m_sin L t) - 1) <= eta.

(** None of the products that the transform computes at these arguments
    overflows or underflows. *)
Definition products_ok (L : Binary64.LibM) (R theta_deg phi_deg : float) : bool :=
  let theta := Binary64.radians theta_deg in
  let phi := Binary64.radians phi_deg in
  no_flow R (Binary64.m_cos L theta)
  && no_flow (R * Binary64.m_cos L theta)%float (Binary64.m_cos L phi)
  && no_flow (R * Binary64.m_cos L theta)%float (Binary64.m_sin L phi)
  && no_flow R (Binary64.m_sin L theta).

(** The point is on the sphere of radius |R| up to the relative error
    of two rounded products and of libm's two angles. *)
Definition on_sphere (eta : R) (R : float) (p : float * float * float) : Prop :=
  (1 - u) ^ 4 * (1 - eta) ^ 2 * (B2R R * B2R R)
  <= norm2 p
  <= (1 + u) ^ 4 * (1 + eta) ^ 2 * (B2R R * B2R R).

(** libm's cosine at the radians of [theta_deg] is within [kappa] of 0
    and its sine within [kappa] of [sg]. *)
Definition pole_accuracy (L : Binary64.LibM) (kappa sg : R) (theta_deg : float) : Prop :=
  Rabs (B2R (Binary64.m_cos L (Binary64.radians theta_deg))) <= kappa
  /\ Rabs (B2R (Binary64.m_sin L (Binary64.radians theta_deg)) - sg) <= kappa.

(** libm's cosine and sine at [t] are in [-1, 1]. *)
Definition unit_range (L : Binary64.LibM) (t : float) : Prop :=
  Rabs (B2R (Binary64.m_cos L t)) <= 1 /\ Rabs (B2R (Binary64.m_sin L t)) <= 1.

(** The point is on the Z axis at height [sg * R], up to [kappa] and
    the rounding of the products. *)
Definition near_axis (kappa sg : R) (R : float) (p : float * float * float) : Prop :=
  Rabs (B2R p.1.1) <= (1 + u) * (1 + u) * kappa * Rabs (B2R R)
  /\ Rabs (B2R p.1.2) <= (1 + u) * (1 + u) * kappa * Rabs (B2R R)
  /\ Rabs (B2R p.2 - sg * B2R R) <= (kappa + u * (1 + kappa)) * Rabs (B2R R).

(** The squared norm of a triple of doubles, computed on doubles as a
    test would, and the comparison with [R * R] up to [tol]. *)
Definition fnorm2 (p : float * float * float) : float :=
  (p.1.1 * p.1.1 + p.1.2 * p.1.2 + p.2 * p.2)%float.

Definition close (a b tol : float) : bool := (abs (a - b) <=? tol)%float.
End Binary64R.

(** ** Sample inputs on doubles *)

Module Sample64.
Local Open Scope float_scope.

Definition t30 : float := 0x1.0c152382d7365p-1.
Definition t45 : float := 0x1.921fb54442d18p-1.
Definition t90 : float := 0x1.921fb54442d18p+0.

(** The values of the platform's libm at the radians of 30, 45 and 90
    degrees (and, by symmetry, of their negatives); at every other
    finite argument the coarse values, and NaN at the others. *)
Definition cos_table (x : float) : float :=
  if abs x =? t30 then 0x1.bb67ae8584cabp-1
  else if abs x =? t45 then 0x1.6a09e667f3bcdp-1
  else if abs x =? t90 then 0x1.1a62633145c07p-54
  else if is_finite x then 1 else nan.

Definition sin_table (x : float) : float :=
  let s := if abs x =? t30 then 0x1.fffffffffffffp-2
           else if abs x =? t45 then 0x1.6a09e667f3bccp-1
           else if abs x =? t90 then 1
           else if is_finite x then 0 else nan in
  if x <? 0 then - s else s.

Definition libm : Binary64.LibM :=
  {| Binary64.m_cos := cos_table; Binary64.m_sin := sin_table |}.

(** Python's [float] on "inf", "nan" and plain decimal numerals. *)
Fixpoint of_pos (p : positive) : float :=
  match p with
  | xH => 1
  | xO q => 2 * of_pos q
  | xI q => 2 * of_pos q + 1
  end.

Definition of_Z (z : Z) : float :=
  match z with
  | Z0 => 0
  | Zpos p => of_pos p
  | Zneg p => - of_pos p
  end.

Definition py_float (s : string) : option float :=
  if String.eqb s "inf" then Some infinity
  else if String.eqb s "nan" then Some nan
  else match s with
       | EmptyString => None
       | _ => of_Z <$> Sample.numeral s 0
       end.

(** One measurement whose test theta is an infinity. *)
Definition table_inf : list (list string) :=
  [ required; ["10"; "inf"; "0"; "0"; "0"] ].

(** One measurement with finite readings. *)
Definition table_one : list (list string) :=
  [ required; ["10"; "30"; "45"; "90"; "0"] ].
End Sample64.


(** ** The floating-point warnings of NumPy *)

Module Warnings.
Local Open Scope float_scope.

(** NumPy looks at the floating-point status after every ufunc call and
    every operation on its scalars.  In its default error state
    ([np.seterr]: invalid and over at 'warn', under at 'ignore') an
    invalid operation or an overflow gives a RuntimeWarning to Python's
    warnings machinery.  Under the default filter a warning is shown
    once for each text and line: its key enters the
    [__warningregistry__] of the calling module, and its text goes to
    stderr.  The script changes neither the error state nor the
    filters. *)
Record world := World {
  registry : gset (string * nat);
  stderr : list string
}.

Definition W (A : Type) : Type := world -> A * world.

#[global] Instance W_ret : MRet W := fun A x w => (x, w).
#[global] Instance W_bind : MBind W :=
  fun A B k c w => let '(x, w') := c w in k x w'.

Definition warn (text : string) (lineno : nat) : W unit := fun w =>
  if bool_decide ((text, lineno) ∈ registry w) then (tt, w)
  else (tt, World ({[ (text, lineno) ]} ∪ registry w) (stderr w ++ [text])).

Definition when (b : bool) (c : W unit) : W unit :=
  if b then c else mret tt.

(** The status flags of a product (IEEE 754, 7.2 and 7.4): invalid for
    zero times infinity, overflow for an infinite result of finite
    operands. *)
Definition invalid_mul (a b : float) : bool :=
  (is_zero a && is_infinity b) || (is_infinity a && is_zero b).

Definition overflow_mul (a b : float) : bool :=
  is_finite a && is_finite b && is_infinity (a * b).

Definition checked_mul (name : string) (lineno : nat) (a b : float) : W float :=
  when (invalid_mul a b) (warn ("invalid value encountered in " +:+ name) lineno);;
  when (overflow_mul a b) (warn ("overflow encountered in " +:+ name) lineno);;
  mret (a * b).

(** [np.radians], [np.cos], [np.sin] and the product of a Python float
    or a NumPy scalar with a NumPy scalar, called from line [lineno].
    The cosine and the sine of an infinity are invalid operations
    (C99, F.10.1.5 and F.10.1.6). *)
Definition np_radians (lineno : nat) (x : float) : W float :=
  checked_mul "radians" lineno x Binary64.DEG2RAD.

Definition np_cos (L : Binary64.LibM) (lineno : nat) (x : float) : W float :=
  when (is_infinity x) (warn "invalid value encountered in cos" lineno);;
  mret (Binary64.m_cos L x).

Definition np_sin (L : Binary64.LibM) (lineno : nat) (x : float) : W float :=
  when (is_infinity x) (warn "invalid value encountered in sin" lineno);;
  mret (Binary64.m_sin L x).

Definition multiply (lineno : nat) (a b : float) : W float :=
  checked_mul "scalar multiply" lineno a b.

(** Lines 7-18, operation by operation in Python's order of
    evaluation. *)
Definition spherical_to_cartesian_custom (L : Binary64.LibM)
    (R theta_deg phi_deg : float) : W (float * float * float) :=
  theta ← np_radians 9 theta_deg;
  phi ← np_radians 10 phi_deg;
  c ← np_cos L 15 theta; a ← multiply 15 R c;
  c' ← np_cos L 15 phi; x ← multiply 15 a c';
  c ← np_cos L 16 theta; a ← multiply 16 R c;
  s' ← np_sin L 16 phi; y ← multiply 16 a s';
  s ← np_sin L 17 theta; z ← multiply 17 R s;
  mret (x, y, z).

(** A computation whose value does not depend on the state. *)
Definition returns {A : Type} (c : W A) (v : A) : Prop :=
  forall w, (c w).1 = v.

(** A computation that moreover leaves every state as it was. *)
Definition silent {A : Type} (c : W A) (v : A) : Prop :=
  forall w, c w = (v, w).

(** All three coordinates are finite. *)
Definition finite3 (p : float * float * float) : bool :=
  is_finite p.1.1 && is_finite p.1.2 && is_finite p.2.

(** The state before any warning. *)
Definition quiet : world := World ∅ [].
End Warnings.

(** * Properties *)

(** ** The transform *)

Section TransformFacts.
Context {F : Type} `{Arith F}.

Lemma transform_unfold (R theta phi : F) :
  spherical_to_cartesian_custom R theta phi = custom_convention R theta phi.
Proof. reflexivity. Qed.

Lemma transform_z_free_of_phi (R theta phi phi' : F) :
  (spherical_to_cartesian_custom R theta phi).2
  = (spherical_to_cartesian_custom R theta phi').2.
Proof. reflexivity. Qed.
End TransformFacts.

Module ExactFacts.
Import Exact.
Local Open Scope R_scope.

Lemma radians_90 : radians 90 = PI / 2.
Proof. unfold radians. field. Qed.

Lemma radians_neg_90 : radians (-90) = - (PI / 2).
Proof. unfold radians. field. Qed.

Lemma radians_0 : radians 0 = 0.
Proof. unfold radians. ring. Qed.

Lemma pythagoras (a : R) : cos a * cos a + sin a * sin a = 1.
Proof.
  pose proof (sin2_cos2 a) as E. unfold Rsqr in E. lra.
Qed.

Lemma norm2_transform (r theta phi : R) :
  norm2 (spherical_to_cartesian_custom r theta phi) = r * r.
Proof.
  unfold spherical_to_cartesian_custom, norm2; cbn.
  set (t := radians theta). set (p := radians phi).
  transitivity (r * r * (cos t * cos t * (cos p * cos p + sin p * sin p)
                         + sin t * sin t)); [ring|].
  rewrite (pythagoras p), Rmult_1_r, (pythagoras t). ring.
Qed.

Lemma transform_at_origin_axes :
  spherical_to_cartesian_custom 1 0 0 = (1, 0, 0)
  /\ iso_convention 1 0 0 = (0, 0, 1).
Proof.
  unfold spherical_to_cartesian_custom, iso_convention; cbn.
  rewrite radians_0, cos_0, sin_0. split; f_equal; try f_equal; ring.
Qed.
(** Over the reals a zero radius gives the origin whatever the angles. *)
Lemma origin_at_zero_radius (theta phi : R) :
  spherical_to_cartesian_custom 0 theta phi = (0, 0, 0).
Proof.
  unfold spherical_to_cartesian_custom; cbn. f_equal; [f_equal|]; ring.
Qed.
(** Over the reals the X and Y components vanish at theta = 90 and
    theta = -90, whatever phi is. *)
Lemma poles (r phi : R) :
  spherical_to_cartesian_custom r 90 phi = (0, 0, r)
  /\ spherical_to_cartesian_custom r (-90) phi = (0, 0, - r).
Proof.
  unfold spherical_to_cartesian_custom; cbn.
  rewrite radians_90, radians_neg_90, cos_neg, sin_neg, cos_PI2, sin_PI2.
  split; f_equal; try f_equal; ring.
Qed.
End ExactFacts.

(** C1: the transform returns the triple of the custom convention,
    x = R cos(radians theta) cos(radians phi),
    y = R cos(radians theta) sin(radians phi), z = R sin(radians theta),
    over every arithmetic; over the reals [radians] is the product with
    pi/180, and the result differs from the ISO convention's (at
    R = 1, theta = phi = 0 the custom point is on +X, the ISO one on +Z). *)
Theorem C1_custom_convention :
  (forall (F : Type) (A : Arith F) (R theta phi : F),
      spherical_to_cartesian_custom R theta phi
      = (fmul (fmul R (np_cos (np_radians theta))) (np_cos (np_radians phi)),
         fmul (fmul R (np_cos (np_radians theta))) (np_sin (np_radians phi)),
         fmul R (np_sin (np_radians theta))))
  /\ (forall r theta phi : R,
      spherical_to_cartesian_custom r theta phi
      = (r * cos (theta * (PI / 180)) * cos (phi * (PI / 180)),
         r * cos (theta * (PI / 180)) * sin (phi * (PI / 180)),
         r * sin (theta * (PI / 180))))%R
  /\ (forall (L : Binary64.LibM) (R theta phi : float),
      @spherical_to_cartesian_custom _ (Binary64.float_arith L) R theta phi
      = (R * Binary64.m_cos L (theta * Binary64.DEG2RAD)
           * Binary64.m_cos L (phi * Binary64.DEG2RAD),
         R * Binary64.m_cos L (theta * Binary64.DEG2RAD)
           * Binary64.m_sin L (phi * Binary64.DEG2RAD),
         R * Binary64.m_sin L (theta * Binary64.DEG2RAD)))%float
  /\ (spherical_to_cartesian_custom 1 0 0 = (1, 0, 0)
      /\ iso_convention 1 0 0 = (0, 0, 1))%R.
Proof.
  split; [|split; [|split]]; try reflexivity.
  apply ExactFacts.transform_at_origin_axes.
Qed.

(** ** The monad *)

Section MonadFacts.
Context {F : Type}.

Lemma bind_return {A B} (c : M F A) (k : A -> M F B) st a st' :
  c st = (Return a, st') -> (c ≫= k) st = k a st'.
Proof. intros E. unfold mbind, M_bind. now rewrite E. Qed.

Lemma bind_raise {A B} (c : M F A) (k : A -> M F B) st e st' :
  c st = (Raise e, st') -> (c ≫= k) st = (Raise e, st').
Proof. intros E. unfold mbind, M_bind. now rewrite E. Qed.

Lemma for_each_app {A} (body : A -> M F unit) (l1 l2 : list A) st st' :
  for_each body l1 st = (Return tt, st') ->
  for_each body (l1 ++ l2) st = for_each body l2 st'.
Proof.
  revert st. induction l1 as [|x l1 IH]; intros st E; simpl in *.
  - unfold mret, M_ret in E. now inversion E.
  - unfold mbind, M_bind in *. destruct (body x st) as [[[]|e] st1]; [|discriminate].
    now apply IH.
Qed.

End MonadFacts.

(** ** The loader *)

Section LoaderFacts.
Context {F : Type} `{Arith F}.
Variable py_float : string -> option F.

Abbreviation cell := (cell py_float).
Abbreviation parsed := (parsed py_float).
Abbreviation first_failure := (first_failure py_float).
Abbreviation load_row := (load_row py_float).
Abbreviation load := (load py_float).

Lemma read_then {B} row key (k : F -> M F B) (st : store F) :
  (getitem row key ≫= fun v => float_of py_float v ≫= k) st
  = match cell row key with
    | Return x => k x st
    | Raise e => (Raise e, st)
    end.
Proof.
  unfold mbind, M_bind, getitem, float_of, cell.
  destruct (row !! key) as [[s|]|]; try reflexivity.
  unfold mret, M_ret. now destruct (py_float s).
Qed.

Lemma modify_then {B} (f : store F -> store F) (k : unit -> M F B) (st : store F) :
  (modify f ≫= k) st = k tt (f st).
Proof. reflexivity. Qed.

Lemma parsed_cell row key x : parsed row key = Some x <-> cell row key = Return x.
Proof.
  unfold parsed. destruct (cell row key); split; congruence.
Qed.

(** One pass of the loop body, as a pure function of the five cells. *)
Lemma load_row_cells row (st : store F) :
  load_row row st =
  match cell row col_R with
  | Raise e => (Raise e, st)
  | Return r =>
    let st1 := Store (R_list st ++ [r]) (theta_test st) (phi_test st)
                     (theta_real st) (phi_real st) (figure st) in
    match cell row col_test_theta with
    | Raise e => (Raise e, st1)
    | Return tt' =>
      let st2 := Store (R_list st ++ [r]) (theta_test st ++ [tt']) (phi_test st)
                       (theta_real st) (phi_real st) (figure st) in
      match cell row col_test_phi with
      | Raise e => (Raise e, st2)
      | Return tp =>
        let st3 := Store (R_list st ++ [r]) (theta_test st ++ [tt'])
                         (phi_test st ++ [tp])
                         (theta_real st) (phi_real st) (figure st) in
        match cell row col_real_theta with
        | Raise e => (Raise e, st3)
        | Return rt =>
          let st4 := Store (R_list st ++ [r]) (theta_test st ++ [tt'])
                           (phi_test st ++ [tp]) (theta_real st ++ [rt])
                           (phi_real st) (figure st) in
          match cell row col_real_phi with
          | Raise e => (Raise e, st4)
          | Return rp =>
            (Return tt,
             Store (R_list st ++ [r]) (theta_test st ++ [tt'])
                   (phi_test st ++ [tp]) (theta_real st ++ [rt])
                   (phi_real st ++ [rp]) (figure st))
          end
        end
      end
    end
  end.
Proof.
  unfold load_row.
  rewrite read_then. destruct (cell row col_R) as [r|e]; [|reflexivity].
  unfold R_list_append. rewrite modify_then. cbn zeta.
  rewrite read_then. destruct (cell row col_test_theta) as [t2|e]; [|reflexivity].
  unfold theta_test_append. rewrite modify_then. cbn zeta.
  rewrite read_then. destruct (cell row col_test_phi) as [t3|e]; [|reflexivity].
  unfold phi_test_append. rewrite modify_then. cbn zeta.
  rewrite read_then. destruct (cell row col_real_theta) as [t4|e]; [|reflexivity].
  unfold theta_real_append. rewrite modify_then. cbn zeta.
  rewrite read_then. destruct (cell row col_real_phi) as [t5|e]; reflexivity.
Qed.
Lemma first_failure_None row keys :
  first_failure row keys = None <-> Forall (fun k => is_Some (parsed row k)) keys.
Proof.
  induction keys as [|k keys IH]; simpl.
  - split; [constructor | reflexivity].
  - destruct (cell row k) as [x|e] eqn:E.
    + rewrite IH. split.
      * intros HF. constructor; [|exact HF].
        exists x. unfold parsed. now rewrite E.
      * intros HF. now inversion HF.
    + split; [discriminate|]. intros HF. inversion HF as [|? ? [x Hx] ?].
      unfold parsed in Hx. rewrite E in Hx. discriminate.
Qed.

Lemma first_failure_at row pre k post e :
  Forall (fun k' => is_Some (parsed row k')) pre ->
  cell row k = Raise e ->
  first_failure row (pre ++ k :: post) = Some e.
Proof.
  intros Hpre Hk. induction Hpre as [|k' pre [x Hx] _ IH]; simpl.
  - now rewrite Hk.
  - apply parsed_cell in Hx. now rewrite Hx.
Qed.

Lemma load_row_outcome row (st : store F) :
  (load_row row st).1
  = match first_failure row required with
    | Some e => Raise e
    | None => Return tt
    end.
Proof.
  rewrite load_row_cells. unfold required, first_failure.
  destruct (cell row col_R); [|reflexivity].
  destruct (cell row col_test_theta); [|reflexivity].
  destruct (cell row col_test_phi); [|reflexivity].
  destruct (cell row col_real_theta); [|reflexivity].
  destruct (cell row col_real_phi); reflexivity.
Qed.

Lemma load_row_figure row (st : store F) :
  figure (load_row row st).2 = figure st.
Proof.
  rewrite load_row_cells.
  destruct (cell row col_R); [|reflexivity].
  destruct (cell row col_test_theta); [|reflexivity].
  destruct (cell row col_test_phi); [|reflexivity].
  destruct (cell row col_real_theta); [|reflexivity].
  destruct (cell row col_real_phi); reflexivity.
Qed.

Lemma load_row_ok row (st : store F) :
  row_ok py_float row ->
  exists r t2 t3 t4 t5,
    parsed row col_R = Some r /\ parsed row col_test_theta = Some t2
    /\ parsed row col_test_phi = Some t3 /\ parsed row col_real_theta = Some t4
    /\ parsed row col_real_phi = Some t5
    /\ load_row row st
       = (Return tt,
          Store (R_list st ++ [r]) (theta_test st ++ [t2]) (phi_test st ++ [t3])
                (theta_real st ++ [t4]) (phi_real st ++ [t5]) (figure st)).
Proof.
  unfold row_ok, required. rewrite load_row_cells. unfold first_failure, parsed.
  destruct (cell row col_R) as [r|]; [|discriminate].
  destruct (cell row col_test_theta) as [t2|]; [|discriminate].
  destruct (cell row col_test_phi) as [t3|]; [|discriminate].
  destruct (cell row col_real_theta) as [t4|]; [|discriminate].
  destruct (cell row col_real_phi) as [t5|]; [|discriminate].
  intros _. exists r, t2, t3, t4, t5. repeat split; reflexivity.
Qed.

(** The loop over rows that are all in order. *)
Lemma load_rows_ok rows :
  Forall (row_ok py_float) rows ->
  exists st,
    for_each load_row rows initial = (Return tt, st)
    /\ loaded py_float rows st /\ figure st = [].
Proof.
  induction rows as [|row rows IH] using rev_ind; intros Hok.
  - exists initial. split; [reflexivity|]. split; [|reflexivity].
    repeat split; constructor.
  - apply Forall_app in Hok as [Hrows Hrow]. inversion Hrow as [|? ? Hr _]; subst.
    destruct (IH Hrows) as (st & Erun & (L1 & L2 & L3 & L4 & L5) & Efig).
    destruct (load_row_ok row st Hr) as (r & t2 & t3 & t4 & t5 & P1 & P2 & P3 & P4 & P5 & E).
    eexists. split.
    + rewrite (for_each_app _ _ _ _ _ Erun). simpl.
      unfold mbind, M_bind. rewrite E. reflexivity.
    + split; [|exact Efig].
      repeat split; simpl; apply Forall2_app; auto.
Qed.

(** The loop stops at the first row that is not in order, with the
    exception of its first failing cell. *)
Lemma load_rows_raise good bad rest e :
  Forall (row_ok py_float) good ->
  first_failure bad required = Some e ->
  exists st0 st,
    for_each load_row good initial = (Return tt, st0)
    /\ loaded py_float good st0
    /\ load_row bad st0 = (Raise e, st)
    /\ for_each load_row (good ++ bad :: rest) initial = (Raise e, st)
    /\ figure st = [].
Proof.
  intros Hgood Hbad.
  destruct (load_rows_ok good Hgood) as (st0 & Erun & HL & Efig).
  pose proof (load_row_outcome bad st0) as Eo. rewrite Hbad in Eo.
  pose proof (load_row_figure bad st0) as Ef.
  destruct (load_row bad st0) as [o st] eqn:E. simpl in Eo, Ef. subst o.
  exists st0, st.
  split; [exact Erun|]. split; [exact HL|]. split; [exact E|].
  split; [|congruence].
  rewrite (for_each_app _ _ _ _ _ Erun). simpl.
  unfold mbind, M_bind. now rewrite E.
Qed.

(** Every list of rows is in order throughout or has a first row that
    is not. *)
Lemma first_bad_row rows :
  Forall (row_ok py_float) rows
  \/ exists good bad rest e,
       rows = good ++ bad :: rest /\ Forall (row_ok py_float) good
       /\ first_failure bad required = Some e.
Proof.
  induction rows as [|row rows IH].
  - left. constructor.
  - destruct (first_failure row required) as [e|] eqn:E.
    + right. exists [], row, rows, e. repeat split; auto.
    + destruct IH as [IH | (good & bad & rest & e & -> & Hg & Hb)].
      * left. now constructor.
      * right. exists (row :: good), bad, rest, e. repeat split; auto.
Qed.
End LoaderFacts.

(** ** The reader's rows *)

Section ReaderFacts.

Lemma fill_lookup_notin (ks : list string) (d : gmap string (option string)) k :
  k ∉ ks -> foldl (fun d k => <[k := None]> d) d ks !! k = d !! k.
Proof.
  revert d. induction ks as [|k' ks IH]; intros d Hk; simpl; [reflexivity|].
  apply not_elem_of_cons in Hk as [Hne Hk].
  rewrite IH by assumption. now apply lookup_insert_ne.
Qed.

Lemma fill_lookup_in (ks : list string) (d : gmap string (option string)) k :
  k ∈ ks -> foldl (fun d k => <[k := None]> d) d ks !! k = Some None.
Proof.
  revert d. induction ks as [|k' ks IH]; intros d Hk; simpl.
  - now apply elem_of_nil in Hk.
  - destruct (decide (k ∈ ks)) as [Hin|Hout].
    + now apply IH.
    + apply elem_of_cons in Hk as [->|Hk]; [|contradiction].
      rewrite fill_lookup_notin by assumption. apply lookup_insert_eq.
Qed.

Lemma cells_lookup_notin (l : list (string * string)) (d : gmap string (option string)) k :
  k ∉ l.*1 -> foldl (fun d kv => <[kv.1 := Some kv.2]> d) d l !! k = d !! k.
Proof.
  revert d. induction l as [|[k' v] l IH]; intros d Hk; simpl; [reflexivity|].
  simpl in Hk. apply not_elem_of_cons in Hk as [Hne Hk].
  rewrite IH by assumption. now apply lookup_insert_ne.
Qed.

(** A name that is not in the header is not a key of any row. *)
Lemma dict_row_absent fieldnames row k :
  k ∉ fieldnames -> dict_row fieldnames row !! k = None.
Proof.
  intros Hk. unfold dict_row.
  rewrite fill_lookup_notin.
  - rewrite cells_lookup_notin; [apply lookup_empty|].
    intros Hin. apply Hk. apply list_elem_of_fmap in Hin as ([k' v] & -> & Hin).
    apply elem_of_zip_l in Hin. exact Hin.
  - intros Hin. apply Hk. revert Hin. apply subseteq_drop.
Qed.
Lemma cells_lookup_in (l : list (string * string)) (d : gmap string (option string)) k v :
  NoDup l.*1 -> (k, v) ∈ l ->
  foldl (fun d kv => <[kv.1 := Some kv.2]> d) d l !! k = Some (Some v).
Proof.
  revert d. induction l as [|[k' v'] l IH]; intros d Hnd Hin; simpl.
  - now apply elem_of_nil in Hin.
  - simpl in Hnd. apply NoDup_cons in Hnd as [Hk' Hnd].
    apply elem_of_cons in Hin as [E|Hin].
    + inversion E; subst k' v'. rewrite cells_lookup_notin by assumption.
      apply lookup_insert_eq.
    + now apply IH.
Qed.

Lemma NoDup_fst_zip (ks vs : list string) : NoDup ks -> NoDup (zip ks vs).*1.
Proof.
  revert vs. induction ks as [|k ks IH]; intros vs Hnd; [constructor|].
  destruct vs as [|v vs]; [constructor|]. simpl.
  apply NoDup_cons in Hnd as [Hk Hnd]. apply NoDup_cons. split; [|now apply IH].
  intros Hin. apply Hk. apply list_elem_of_fmap in Hin as ([k' v'] & -> & Hin).
  now apply elem_of_zip_l in Hin.
Qed.

(** With distinct header names, the cell under a name is the cell of the
    record at the name's position in the header. *)
Lemma dict_row_cell fieldnames (row : list string) j k s :
  NoDup fieldnames -> fieldnames !! j = Some k -> row !! j = Some s ->
  dict_row fieldnames row !! k = Some (Some s).
Proof.
  intros Hnd Hk Hs. unfold dict_row.
  rewrite fill_lookup_notin.
  - apply cells_lookup_in; [now apply NoDup_fst_zip|].
    apply (list_elem_of_lookup_2 _ j). apply lookup_zip_with_Some. eauto.
  - intros Hin. apply list_elem_of_lookup_1 in Hin as [i Hi].
    rewrite lookup_drop in Hi.
    pose proof (NoDup_lookup _ _ _ _ Hnd Hk Hi) as Ej.
    apply lookup_lt_Some in Hs. lia.
Qed.

(** A record shorter than the header has [None] under the names it does
    not reach. *)
Lemma dict_row_short fieldnames (row : list string) j k :
  fieldnames !! j = Some k -> length row <= j ->
  dict_row fieldnames row !! k = Some None.
Proof.
  intros Hk Hj. unfold dict_row. apply fill_lookup_in.
  apply (list_elem_of_lookup_2 _ (j - length row)).
  rewrite lookup_drop. rewrite <- Hk. f_equal. lia.
Qed.
End ReaderFacts.

(** ** Conversion and plotting *)

Section ScriptFacts.
Context {F : Type} `{Arith F}.
Variable py_float : string -> option F.

Lemma draw_nil (st : store F) : draw [] st = st.
Proof. destruct st. unfold draw; simpl. now rewrite app_nil_r. Qed.

Lemma draw_draw cs cs' (st : store F) : draw cs' (draw cs st) = draw (cs ++ cs') st.
Proof. unfold draw; simpl. now rewrite app_assoc. Qed.

Lemma mpl_draw c (st : store F) : mpl c st = (Return tt, draw [c] st).
Proof. reflexivity. Qed.

Lemma for_each_mpl {A} (g : A -> mpl_call F) (l : list A) (st : store F) :
  for_each (fun a => mpl (g a)) l st = (Return tt, draw (g <$> l) st).
Proof.
  revert st. induction l as [|a l IH]; intros st; simpl.
  - now rewrite draw_nil.
  - unfold mbind, M_bind. rewrite mpl_draw, IH, draw_draw. reflexivity.
Qed.

Lemma comprehension_value {A B} (f : A -> M F B) (g : A -> B) (l : list A) (st : store F) :
  (forall a st', f a st' = (Return (g a), st')) ->
  comprehension f l st = (Return (g <$> l), st).
Proof.
  intros Hf. induction l as [|x l IH]; simpl; [reflexivity|].
  unfold mbind, M_bind. now rewrite Hf, IH.
Qed.

Lemma call_transform_value (a : F * F * F) (st : store F) :
  call_transform a st = (Return (transform3 a), st).
Proof. destruct a as [[R t] p]. reflexivity. Qed.

Lemma convert_value (st : store F) :
  convert st = (Return (test_points st, real_points st), st).
Proof.
  unfold convert, get, mbind, M_bind.
  rewrite !(comprehension_value _ transform3) by apply call_transform_value.
  reflexivity.
Qed.

Lemma connect_draw (test_xyz real_xyz : list point) (st : store F) :
  connect test_xyz real_xyz st
  = (Return tt, draw (segment <$> zip test_xyz real_xyz) st).
Proof. apply for_each_mpl. Qed.

Lemma render_empty (real_xyz : list point) (st : store F) :
  render [] real_xyz st = (Raise ValueError_unpack, st).
Proof. reflexivity. Qed.

Lemma render_draw (test_xyz real_xyz : list point) (st : store F) :
  test_xyz <> [] -> real_xyz <> [] ->
  render test_xyz real_xyz st = (Return tt, draw (drawing test_xyz real_xyz) st).
Proof.
  intros Ht Hr. unfold render.
  destruct test_xyz as [|t test_xyz]; [contradiction|].
  destruct real_xyz as [|r real_xyz]; [contradiction|].
  unfold unpack3, mbind, M_bind, mret, M_ret.
  repeat (first [rewrite mpl_draw | rewrite connect_draw]; cbv beta iota).
  rewrite !draw_draw. reflexivity.
Qed.

Lemma zip3_length {A B C} (la : list A) (lb : list B) (lc : list C) :
  length la = length lb -> length la = length lc ->
  length (zip3 la lb lc) = length la.
Proof.
  revert lb lc. induction la as [|a la IH]; intros [|b lb] [|c lc] E1 E2;
    simpl in *; try discriminate; [reflexivity|].
  f_equal. apply IH; congruence.
Qed.

Lemma zip3_lookup {A B C} (la : list A) (lb : list B) (lc : list C) i a b c :
  la !! i = Some a -> lb !! i = Some b -> lc !! i = Some c ->
  zip3 la lb lc !! i = Some (a, b, c).
Proof.
  revert lb lc i. induction la as [|a' la IH]; intros [|b' lb] [|c' lc] [|i];
    simpl; try discriminate.
  - congruence.
  - apply IH.
Qed.

Lemma loaded_lengths rows (st : store F) :
  loaded py_float rows st ->
  length (R_list st) = length rows /\ length (theta_test st) = length rows
  /\ length (phi_test st) = length rows /\ length (theta_real st) = length rows
  /\ length (phi_real st) = length rows.
Proof.
  intros (L1 & L2 & L3 & L4 & L5).
  apply Forall2_length in L1, L2, L3, L4, L5. repeat split; congruence.
Qed.

Lemma script_load_raise file (st st' : store F) e :
  load py_float file st = (Raise e, st') ->
  script py_float file st = (Raise e, st').
Proof. intros E. unfold script. now apply bind_raise. Qed.

Lemma script_load_return file (st st' : store F) :
  load py_float file st = (Return tt, st') ->
  script py_float file st = render (test_points st') (real_points st') st'.
Proof.
  intros E. unfold script. rewrite (bind_return _ _ _ _ _ E).
  unfold mbind, M_bind. now rewrite convert_value.
Qed.
Lemma Forall2_take_all {A B} (P : A -> B -> Prop) (l l' : list A) (k : list B) :
  Forall2 P l k -> Forall2 P (take (length k) (l ++ l')) k.
Proof.
  intros HF. rewrite <- (Forall2_length _ _ _ HF).
  now rewrite take_app_length.
Qed.

Lemma Forall2_take_snoc {A B} (P : A -> B -> Prop) (l : list A) a (k : list B) b :
  Forall2 P l k -> P a b -> Forall2 P (take (length (k ++ [b])) (l ++ [a])) (k ++ [b]).
Proof.
  intros HF Hab. rewrite length_app. simpl.
  rewrite <- (Forall2_length _ _ _ HF).
  rewrite take_ge by (rewrite length_app; simpl; lia).
  apply Forall2_app; auto.
Qed.

(** A row that raises leaves in each list the numbers parsed so far. *)
Lemma load_row_prefix good bad (st0 st : store F) o :
  loaded py_float good st0 ->
  load_row py_float bad st0 = (o, st) ->
  prefix_loaded py_float (good ++ [bad]) st.
Proof.
  intros (L1 & L2 & L3 & L4 & L5). rewrite load_row_cells.
  destruct (cell py_float bad col_R) as [r|] eqn:E1;
    [apply parsed_cell in E1|];
  [destruct (cell py_float bad col_test_theta) as [t2|] eqn:E2;
    [apply parsed_cell in E2|];
  [destruct (cell py_float bad col_test_phi) as [t3|] eqn:E3;
    [apply parsed_cell in E3|];
  [destruct (cell py_float bad col_real_theta) as [t4|] eqn:E4;
    [apply parsed_cell in E4|];
  [destruct (cell py_float bad col_real_phi) as [t5|] eqn:E5;
    [apply parsed_cell in E5|]|]|]|]|];
  intros E; inversion E; subst; unfold prefix_loaded; simpl;
  repeat split;
  first [ now apply Forall2_take_snoc | now apply Forall2_take_all ].
Qed.
End ScriptFacts.

(** ** Loader claims *)

(** C5: for a table with the five required header columns whose data
    rows (the non-blank records after the header) all hold numbers in
    the five required cells, the loader returns with five lists, each as
    long as there are data rows, whose i-th elements are the numbers
    parsed from the i-th data row. *)
Theorem C5_loader_columns {F : Type} (py_float : string -> option F)
    (fieldnames : list string) (rest : list (list string)) :
  let data := filter (fun r => r ≠ []) rest in
  (forall k, k ∈ required -> k ∈ fieldnames) ->
  (forall r k, r ∈ data -> k ∈ required ->
     is_Some (parsed py_float (dict_row fieldnames r) k)) ->
  exists st,
    load py_float (Some (fieldnames :: rest)) initial = (Return tt, st)
    /\ length (R_list st) = length data
    /\ length (theta_test st) = length data
    /\ length (phi_test st) = length data
    /\ length (theta_real st) = length data
    /\ length (phi_real st) = length data
    /\ forall i r, data !! i = Some r ->
         R_list st !! i = parsed py_float (dict_row fieldnames r) col_R
         /\ theta_test st !! i = parsed py_float (dict_row fieldnames r) col_test_theta
         /\ phi_test st !! i = parsed py_float (dict_row fieldnames r) col_test_phi
         /\ theta_real st !! i = parsed py_float (dict_row fieldnames r) col_real_theta
         /\ phi_real st !! i = parsed py_float (dict_row fieldnames r) col_real_phi.
Proof.
  intros data _ Hcells.
  assert (Hok : Forall (row_ok py_float) (DictReader (fieldnames :: rest))).
  { simpl. apply Forall_fmap, Forall_forall. intros r Hr.
    apply first_failure_None, Forall_forall. intros k Hk. now apply Hcells. }
  destruct (load_rows_ok py_float _ Hok) as (st & Erun & HL & _).
  exists st. split; [exact Erun|].
  destruct (loaded_lengths py_float _ _ HL) as (N1 & N2 & N3 & N4 & N5).
  simpl in N1, N2, N3, N4, N5. rewrite length_fmap in N1, N2, N3, N4, N5.
  do 5 (split; [assumption|]).
  intros i r Hi. destruct HL as (L1 & L2 & L3 & L4 & L5).
  assert (Hrow : DictReader (fieldnames :: rest) !! i = Some (dict_row fieldnames r)).
  { simpl. rewrite list_lookup_fmap. fold data. now rewrite Hi. }
  repeat split;
    match goal with
    | HF : Forall2 (fun row x => parsed _ row ?c = Some x) _ (?f st)
      |- ?f st !! i = parsed _ _ ?c =>
        destruct (Forall2_lookup_l _ _ _ _ _ HF Hrow) as (x & Hx & Hp);
        now rewrite Hx, Hp
    end.
Qed.

(** C5 at the sample table: two data rows around a blank record. *)
Lemma C5_loader_columns_witness :
  exists st,
    load Sample.decimal (Some Sample.table) initial = (Return tt, st)
    /\ length (R_list st) = 2 /\ length (phi_real st) = 2
    /\ R_list st !! 1 = Some 12%R /\ phi_real st !! 1 = Some 88%R.
Proof.
  destruct (C5_loader_columns Sample.decimal required (tail Sample.table))
    as (st & E & N1 & _ & _ & _ & N5 & Hrows).
  - intros k Hk. exact Hk.
  - intros r k Hr Hk.
    assert (Hr' : r ∈ [["10"; "30"; "45"; "32"; "44"]; ["12"; "60"; "90"; "61"; "88"]])
      by exact Hr.
    clear Hr. unfold required in Hk.
    repeat (apply elem_of_cons in Hr' as [->|Hr']);
      [ | | now apply elem_of_nil in Hr' ];
      repeat (apply elem_of_cons in Hk as [->|Hk]);
      try (now apply elem_of_nil in Hk);
      vm_compute; eexists; reflexivity.
  - exists st. split; [exact E|].
    split; [exact N1|]. split; [exact N5|].
    destruct (Hrows 1 ["12"; "60"; "90"; "61"; "88"] eq_refl) as (H1 & _ & _ & _ & H5).
    split; [rewrite H1 | rewrite H5]; vm_compute; reflexivity.
Defined.

Section MissingHeader.
Context {F : Type} `{Arith F}.
Variable py_float : string -> option F.

Lemma missing_cell fieldnames r k :
  k ∉ fieldnames -> cell py_float (dict_row fieldnames r) k = Raise (KeyError k).
Proof. intros Hk. unfold cell. now rewrite dict_row_absent. Qed.

Lemma missing_row_fails fieldnames r k :
  k ∈ required -> k ∉ fieldnames -> ~ row_ok py_float (dict_row fieldnames r).
Proof.
  intros Hreq Hk Hok. apply first_failure_None in Hok.
  rewrite Forall_forall in Hok. destruct (Hok k Hreq) as [x Hx].
  apply parsed_cell in Hx. rewrite missing_cell in Hx by assumption. discriminate.
Qed.

(** Whatever the loader does, a run that gets past it with no rows stops
    at the unpacking. *)
Lemma script_no_rows fieldnames rest :
  filter (fun r => r ≠ []) rest = [] ->
  load py_float (Some (fieldnames :: rest)) initial = (Return tt, initial)
  /\ script py_float (Some (fieldnames :: rest)) initial
     = (Raise ValueError_unpack, initial).
Proof.
  intros E.
  assert (EL : load py_float (Some (fieldnames :: rest)) initial = (Return tt, initial)).
  { unfold load, DictReader. rewrite E. reflexivity. }
  split; [exact EL|]. rewrite (script_load_return _ _ _ _ EL). reflexivity.
Qed.
End MissingHeader.

(** The claim of C6 fails at a table whose header lost a column and that
    has no data row: the loader returns, with five empty lists, and the
    run stops later, at the unpacking, with another exception. *)
Lemma C6_counterexample :
  bool_decide (col_real_phi ∈ hd [] Sample.table_renamed_empty) = false
  /\ load Sample.decimal (Some Sample.table_renamed_empty) initial
     = (Return tt, initial)
  /\ script Sample.decimal (Some Sample.table_renamed_empty) initial
     = (Raise ValueError_unpack, initial).
Proof. split; [|split]; vm_compute; reflexivity. Qed.

(** C6, amended: when a required column is missing from the header, the
    run ends in an exception that is not caught, before any call into
    matplotlib.  With at least one data row the loader raises on the
    first of them, and it raises the key-lookup error of the missing
    column when the cells read before it in that row hold numbers; with
    no data row the loader returns five empty lists and the run stops at
    the unpacking. *)
Theorem C6_missing_header {F : Type} {A : Arith F} (py_float : string -> option F)
    (fieldnames : list string) (rest : list (list string)) (k : string) :
  k ∈ required -> k ∉ fieldnames ->
  (exists e st,
      script py_float (Some (fieldnames :: rest)) initial = (Raise e, st)
      /\ figure st = [])
  /\ (forall r data,
        filter (fun r => r ≠ []) rest = r :: data ->
        exists e st,
          load py_float (Some (fieldnames :: rest)) initial = (Raise e, st)
          /\ first_failure py_float (dict_row fieldnames r) required = Some e
          /\ script py_float (Some (fieldnames :: rest)) initial = (Raise e, st)
          /\ figure st = []
          /\ forall pre post,
               required = pre ++ k :: post ->
               Forall (fun k' => is_Some (parsed py_float (dict_row fieldnames r) k')) pre ->
               e = KeyError k)
  /\ (filter (fun r => r ≠ []) rest = [] ->
      load py_float (Some (fieldnames :: rest)) initial = (Return tt, initial)
      /\ script py_float (Some (fieldnames :: rest)) initial
         = (Raise ValueError_unpack, initial)).
Proof.
  intros Hreq Hk.
  assert (Hrows : forall r data,
    filter (fun r => r ≠ []) rest = r :: data ->
    exists e st,
      load py_float (Some (fieldnames :: rest)) initial = (Raise e, st)
      /\ first_failure py_float (dict_row fieldnames r) required = Some e
      /\ script py_float (Some (fieldnames :: rest)) initial = (Raise e, st)
      /\ figure st = []).
  { intros r data E.
    destruct (first_failure py_float (dict_row fieldnames r) required) as [e|] eqn:Ef.
    - destruct (load_rows_raise py_float [] (dict_row fieldnames r)
                  (dict_row fieldnames <$> data) e) as (st0 & st & _ & _ & _ & Er & Efig);
        [constructor | exact Ef |].
      assert (EL : load py_float (Some (fieldnames :: rest)) initial = (Raise e, st)).
      { unfold load, DictReader. rewrite E. exact Er. }
      exists e, st. repeat split; auto. now apply script_load_raise.
    - exfalso. now apply (missing_row_fails py_float fieldnames r k). }
  split; [|split].
  - destruct (filter (fun r => r ≠ []) rest) as [|r data] eqn:E.
    + exists ValueError_unpack, initial. split; [|reflexivity].
      now apply script_no_rows.
    + destruct (Hrows r data eq_refl) as (e & st & _ & _ & Es & Efig). eauto.
  - intros r data E.
    destruct (Hrows r data E) as (e & st & EL & Ef & Es & Efig).
    exists e, st. do 4 (split; [assumption|]).
    intros pre post Epre Hpre.
    rewrite Epre in Ef.
    rewrite (first_failure_at py_float _ pre k post (KeyError k)) in Ef;
      [congruence | exact Hpre | now apply missing_cell].
  - apply script_no_rows.
Qed.

(** C6 at the sample table whose last column was renamed. *)
Lemma C6_missing_header_witness :
  exists st,
    script Sample.decimal (Some Sample.table_renamed) initial
    = (Raise (KeyError col_real_phi), st)
    /\ figure st = [].
Proof.
  destruct (C6_missing_header Sample.decimal
              (hd [] Sample.table_renamed) (tail Sample.table_renamed) col_real_phi)
    as (_ & Hrow & _).
  - unfold required. set_solver.
  - apply (bool_decide_eq_false_1 _). vm_compute. reflexivity.
  - destruct (Hrow ["10"; "30"; "45"; "32"; "44"] [] eq_refl)
      as (e & st & _ & _ & Es & Efig & He).
    rewrite (He [col_R; col_test_theta; col_test_phi; col_real_theta] [] eq_refl) in Es.
    + exists st. split; [exact Es | exact Efig].
    + repeat constructor; vm_compute; eexists; reflexivity.
Defined.

(** The claim of C7 fails at tables that hold a cell that is no number
    ("sixty") and yet do not raise the conversion error: a short record
    earlier in the table makes [float] raise a type error on the absent
    cell, and a header without the radius column makes the first lookup
    raise the key error. *)
Lemma C7_counterexample :
  (exists r, r ∈ tail Sample.table_short_row
             /\ dict_row required r !! col_test_theta = Some (Some "sixty")
             /\ Sample.decimal "sixty" = None)
  /\ load Sample.decimal (Some Sample.table_short_row) initial
     = (Raise TypeError_float, Store [10%R] [] [] [] [] [])
  /\ load Sample.decimal (Some Sample.table_no_radius) initial
     = (Raise (KeyError col_R), initial).
Proof.
  split; [|split].
  - exists ["12"; "sixty"; "90"; "61"; "88"]. split; [|split].
    + unfold Sample.table_short_row. simpl. set_solver.
    + vm_compute. reflexivity.
    + reflexivity.
  - vm_compute. reflexivity.
  - vm_compute. reflexivity.
Qed.

(** C7, amended: when the first required cell, in reading order (row by
    row, and in a row in the order R, test theta, test phi, real theta,
    real phi), that does not hold a number is a string, the loader
    raises the conversion error of that string.  Nothing catches it: the
    run ends with that exception and no call into matplotlib, and the
    lists hold the numbers parsed before it and nothing else. *)
Theorem C7_bad_cell {F : Type} {A : Arith F} (py_float : string -> option F)
    (records : list (list string))
    (good : list (gmap string (option string))) (bad : gmap string (option string))
    (later : list (gmap string (option string)))
    (pre : list string) (k : string) (post : list string) (s : string) :
  DictReader records = good ++ bad :: later ->
  Forall (fun row => forall k', k' ∈ required -> is_Some (parsed py_float row k')) good ->
  required = pre ++ k :: post ->
  Forall (fun k' => is_Some (parsed py_float bad k')) pre ->
  bad !! k = Some (Some s) ->
  py_float s = None ->
  exists st,
    load py_float (Some records) initial = (Raise (ValueError_float s), st)
    /\ script py_float (Some records) initial = (Raise (ValueError_float s), st)
    /\ figure st = []
    /\ prefix_loaded py_float (good ++ [bad]) st.
Proof.
  intros Erows Hgood Ereq Hpre Hcell Hs.
  assert (Hok : Forall (row_ok py_float) good).
  { eapply Forall_impl; [exact Hgood|]. intros row Hrow.
    apply first_failure_None, Forall_forall. exact Hrow. }
  assert (Hbad : first_failure py_float bad required = Some (ValueError_float s)).
  { rewrite Ereq. apply first_failure_at; [exact Hpre|].
    unfold cell. now rewrite Hcell, Hs. }
  destruct (load_rows_raise py_float good bad later _ Hok Hbad)
    as (st0 & st & _ & HL & Erow & Erun & Efig).
  assert (EL : load py_float (Some records) initial = (Raise (ValueError_float s), st)).
  { unfold load. rewrite Erows. exact Erun. }
  exists st. split; [exact EL|]. split; [now apply script_load_raise|].
  split; [exact Efig|]. eapply load_row_prefix; eauto.
Qed.

(** C7 at the sample table with "sixty" in its second data row. *)
Lemma C7_bad_cell_witness :
  exists st,
    script Sample.decimal (Some Sample.table_bad_cell) initial
    = (Raise (ValueError_float "sixty"), st)
    /\ figure st = [] /\ R_list st = [10%R; 12%R] /\ theta_test st = [30%R].
Proof.
  destruct (C7_bad_cell Sample.decimal Sample.table_bad_cell
              [dict_row required ["10"; "30"; "45"; "32"; "44"]]
              (dict_row required ["12"; "sixty"; "90"; "61"; "88"]) []
              [col_R] col_test_theta [col_test_phi; col_real_theta; col_real_phi]
              "sixty")
    as (st & EL & Es & Efig & _).
  - reflexivity.
  - constructor; [|constructor]. intros k' Hk'. unfold required in Hk'.
    repeat (apply elem_of_cons in Hk' as [->|Hk']);
      try (now apply elem_of_nil in Hk'); vm_compute; eexists; reflexivity.
  - reflexivity.
  - constructor; [|constructor]. vm_compute; eexists; reflexivity.
  - vm_compute. reflexivity.
  - reflexivity.
  - exists st. split; [exact Es|]. split; [exact Efig|].
    assert (Est : st = Store [10%R; 12%R] [30%R] [45%R] [32%R] [44%R] []).
    { assert (E' : load Sample.decimal (Some Sample.table_bad_cell) initial
                   = (Raise (ValueError_float "sixty"),
                      Store [10%R; 12%R] [30%R] [45%R] [32%R] [44%R] []))
        by (vm_compute; reflexivity).
      congruence. }
    subst st. split; reflexivity.
Defined.

(** ** Renderer claims *)

Section RendererFacts.
Context {F : Type}.

Lemma segments_segment (pairs : list (@point F * @point F)) :
  segments (segment <$> pairs) = segment <$> pairs.
Proof.
  unfold segments. induction pairs as [|[[[xt yt] zt] [[xr yr] zr]] pairs IH];
    [reflexivity|].
  rewrite fmap_cons. simpl. f_equal. exact IH.
Qed.

Lemma segments_drawing (test_xyz real_xyz : list (@point F)) :
  segments (drawing test_xyz real_xyz) = segment <$> zip test_xyz real_xyz.
Proof.
  unfold drawing, segments. simpl. rewrite List.filter_app. simpl.
  rewrite app_nil_r. apply segments_segment.
Qed.
End RendererFacts.

(** C8: for test and real points of equal length N the connecting loop
    adds exactly N plot calls to the figure, the i-th drawn from test[i]
    to real[i]; they are the only plot calls among the calls of the
    rendering, and the only ones that the rendering adds to the figure
    (with no points it stops at the unpacking and adds none). *)
Theorem C8_segments {F : Type} (test_xyz real_xyz : list (F * F * F)) (st : store F) :
  length test_xyz = length real_xyz ->
  connect test_xyz real_xyz st
  = (Return tt, draw (segment <$> zip test_xyz real_xyz) st)
  /\ length (segment <$> zip test_xyz real_xyz) = length test_xyz
  /\ (forall i xt yt zt xr yr zr,
        test_xyz !! i = Some (xt, yt, zt) -> real_xyz !! i = Some (xr, yr, zr) ->
        (segment <$> zip test_xyz real_xyz) !! i
        = Some (Plot [xt; xr] [yt; yr] [zt; zr] "gray" "--" "0.5"))
  /\ segments (drawing test_xyz real_xyz) = segment <$> zip test_xyz real_xyz
  /\ segments (figure (render test_xyz real_xyz st).2)
     = segments (figure st) ++ (segment <$> zip test_xyz real_xyz).
Proof.
  intros Hlen.
  assert (Hrender : test_xyz <> [] ->
            render test_xyz real_xyz st
            = (Return tt, draw (drawing test_xyz real_xyz) st)).
  { intros Ht. apply render_draw; [exact Ht|].
    intros ->. destruct test_xyz; [contradiction | discriminate]. }
  split; [apply connect_draw|]. split; [|split; [|split]].
  - rewrite length_fmap, length_zip_with. lia.
  - intros i xt yt zt xr yr zr Ht Hr.
    assert (Hz : zip test_xyz real_xyz !! i = Some ((xt, yt, zt), (xr, yr, zr))).
    { apply lookup_zip_with_Some. eauto. }
    apply list_lookup_fmap_Some. exists ((xt, yt, zt), (xr, yr, zr)).
    split; [reflexivity | exact Hz].
  - apply segments_drawing.
  - destruct test_xyz as [|t test_xyz].
    + change (render [] real_xyz st) with (@Raise unit ValueError_unpack, st).
      simpl. now rewrite app_nil_r.
    + rewrite Hrender by discriminate.
      change (segments (figure st ++ drawing (t :: test_xyz) real_xyz)
              = segments (figure st) ++ (segment <$> zip (t :: test_xyz) real_xyz)).
      unfold segments at 1 2. rewrite List.filter_app. f_equal.
      apply segments_drawing.
Qed.

(** C8 at two pairs of points. *)
Lemma C8_segments_witness :
  connect [(1, 0, 0); (0, 1, 0)]%R [(0, 0, 1); (1, 1, 0)]%R initial
  = (Return tt,
     draw [Plot [1; 0] [0; 0] [0; 1] "gray" "--" "0.5";
           Plot [0; 1] [1; 1] [0; 0] "gray" "--" "0.5"]%R initial).
Proof.
  destruct (C8_segments [(1, 0, 0); (0, 1, 0)]%R [(0, 0, 1); (1, 1, 0)]%R
              initial eq_refl) as (E & _).
  exact E.
Defined.

(** ** The paired points *)

Section PairedFacts.
Context {F : Type} `{Arith F}.
Variable py_float : string -> option F.

(** A load that returns leaves the five lists equally long. *)
Lemma load_return_lengths file (st : store F) :
  load py_float file initial = (Return tt, st) ->
  length (theta_test st) = length (R_list st)
  /\ length (phi_test st) = length (R_list st)
  /\ length (theta_real st) = length (R_list st)
  /\ length (phi_real st) = length (R_list st)
  /\ figure st = [].
Proof.
  destruct file as [records|]; [|discriminate]. unfold load. intros E.
  destruct (first_bad_row py_float (DictReader records))
    as [Hok | (good & bad & later & e & Erows & Hgood & Hbad)].
  - destruct (load_rows_ok py_float _ Hok) as (st' & E' & HL & Efig).
    assert (st' = st) by congruence. subst st'.
    destruct (loaded_lengths py_float _ _ HL) as (N1 & N2 & N3 & N4 & N5).
    repeat split; congruence.
  - destruct (load_rows_raise py_float good bad later e Hgood Hbad)
      as (_ & st' & _ & _ & _ & E' & _).
    rewrite Erows in E. congruence.
Qed.

Lemma paired_points (st : store F) :
  length (theta_test st) = length (R_list st) ->
  length (phi_test st) = length (R_list st) ->
  length (theta_real st) = length (R_list st) ->
  length (phi_real st) = length (R_list st) ->
  length (test_points st) = length (R_list st)
  /\ length (real_points st) = length (R_list st)
  /\ forall i r, R_list st !! i = Some r ->
       exists t p t' p',
         theta_test st !! i = Some t /\ phi_test st !! i = Some p
         /\ theta_real st !! i = Some t' /\ phi_real st !! i = Some p'
         /\ test_points st !! i = Some (spherical_to_cartesian_custom r t p)
         /\ real_points st !! i = Some (spherical_to_cartesian_custom r t' p').
Proof.
  intros N2 N3 N4 N5. unfold test_points, real_points.
  rewrite !length_fmap, !zip3_length by congruence.
  split; [reflexivity|]. split; [reflexivity|].
  intros i r Hr. pose proof (lookup_lt_Some _ _ _ Hr) as Hi.
  destruct (lookup_lt_is_Some_2 (theta_test st) i) as [t Ht]; [lia|].
  destruct (lookup_lt_is_Some_2 (phi_test st) i) as [p Hp]; [lia|].
  destruct (lookup_lt_is_Some_2 (theta_real st) i) as [t' Ht']; [lia|].
  destruct (lookup_lt_is_Some_2 (phi_real st) i) as [p' Hp']; [lia|].
  exists t, p, t', p'. do 4 (split; [assumption|]).
  rewrite !list_lookup_fmap.
  rewrite (zip3_lookup _ _ _ i r t p), (zip3_lookup _ _ _ i r t' p') by assumption.
  split; reflexivity.
Qed.
End PairedFacts.

(** ** Binary64: the transform at radius zero *)

Module Binary64Facts.
Import Binary64.
Local Open Scope float_scope.

Lemma SFcompare_refl_finite s m e :
  SFcompare (S754_finite s m e) (S754_finite s m e) = Some Eq.
Proof.
  simpl. rewrite Z.compare_refl.
  assert (E : Pos.compare_cont Eq m m = Eq) by apply Pos.compare_cont_refl.
  rewrite E. now destruct s.
Qed.

Lemma is_finite_spec x : is_finite x = sf_finite (Prim2SF x).
Proof.
  unfold is_finite, is_nan, is_infinity.
  rewrite !FloatAxioms.eqb_spec, abs_spec.
  change (Prim2SF PrimFloat.infinity) with (S754_infinity false).
  destruct (Prim2SF x) as [s|s| |s m e] eqn:E; try (now destruct s).
  - reflexivity.
  - unfold SFeqb. rewrite SFcompare_refl_finite. reflexivity.
Qed.

Lemma is_zero_spec x : is_zero x = sf_zero (Prim2SF x).
Proof.
  unfold is_zero. rewrite FloatAxioms.eqb_spec.
  change (Prim2SF PrimFloat.zero) with (S754_zero false).
  destruct (Prim2SF x) as [s|s| |s m e]; try (now destruct s). reflexivity.
Qed.

Lemma mul_zero_finite a b :
  is_zero a = true -> is_finite b = true -> is_zero (a * b) = true.
Proof.
  rewrite !is_zero_spec, is_finite_spec, mul_spec. unfold SF64mul.
  destruct (Prim2SF a); try discriminate.
  destruct (Prim2SF b); try discriminate; reflexivity.
Qed.

Lemma is_nan_eq x : is_nan x = true -> x = nan.
Proof.
  intros E. rewrite <- (SF2Prim_Prim2SF x). unfold Prim2SF. now rewrite E.
Qed.

Lemma mul_nan_l x : nan * x = nan.
Proof.
  apply Prim2SF_inj. rewrite mul_spec. reflexivity.
Qed.

Lemma mul_nan_r x : x * nan = nan.
Proof.
  apply Prim2SF_inj. rewrite mul_spec.
  change (Prim2SF nan) with S754_nan. unfold SF64mul. now destruct (Prim2SF x).
Qed.

Local Open Scope Z_scope.

Lemma digits2_size p : digits2_pos p = Pos.size p.
Proof. induction p; simpl; congruence. Qed.

Lemma digits_lt_pow p : Zpos p < 2 ^ Zpos (digits2_pos p).
Proof.
  rewrite digits2_size.
  pose proof (Pos.size_gt p) as G.
  apply Pos2Z.pos_lt_pos in G. now rewrite Pos2Z.inj_pow in G.
Qed.

Lemma pow_le_digits p : 2 ^ Zpos (digits2_pos p) <= 2 * Zpos p.
Proof.
  rewrite digits2_size.
  pose proof (Pos.size_le p) as G.
  apply Pos2Z.pos_le_pos in G. now rewrite Pos2Z.inj_pow in G.
Qed.

Lemma Zdigits2_le m k : 0 <= k -> 0 <= m < 2 ^ k -> Zdigits2 m <= k.
Proof.
  intros Hk [Hm0 Hm]. destruct m as [|p|p]; simpl; [lia| |lia].
  pose proof (pow_le_digits p) as G.
  assert (L : 2 ^ Zpos (digits2_pos p) < 2 ^ (k + 1)).
  { rewrite Z.pow_add_r by lia. lia. }
  apply Z.pow_lt_mono_r_iff in L; lia.
Qed.

Lemma shr_1_m mrs : 0 <= shr_m mrs -> shr_m (shr_1 mrs) = shr_m mrs / 2.
Proof.
  destruct mrs as [m r s]. simpl. intros Hm.
  destruct m as [|[p|p|]|p]; simpl; try lia; try reflexivity.
  - rewrite (Pos2Z.inj_xI p). apply (Z.div_unique _ _ _ 1); lia.
  - rewrite (Pos2Z.inj_xO p). apply (Z.div_unique _ _ _ 0); lia.
Qed.

Lemma iter_shr_1_m n mrs :
  0 <= shr_m mrs -> shr_m (SpecFloat.iter_pos shr_1 n mrs) = shr_m mrs / 2 ^ Zpos n.
Proof.
  revert mrs. induction n as [n IH|n IH|]; intros mrs Hm; simpl SpecFloat.iter_pos.
  - assert (P : 0 < 2 ^ Zpos n) by (apply Z.pow_pos_nonneg; lia).
    assert (H1 : 0 <= shr_m (shr_1 mrs)).
    { rewrite shr_1_m by assumption. apply Z.div_pos; lia. }
    assert (H2 : 0 <= shr_m (SpecFloat.iter_pos shr_1 n (shr_1 mrs))).
    { rewrite IH by assumption. apply Z.div_pos; lia. }
    rewrite IH, IH, shr_1_m by assumption.
    rewrite !Z.div_div by lia.
    f_equal. rewrite (Pos2Z.inj_xI n).
    replace (2 * Zpos n + 1) with (1 + Zpos n + Zpos n) by lia.
    rewrite !Z.pow_add_r by lia. rewrite Z.pow_1_r. ring.
  - assert (P : 0 < 2 ^ Zpos n) by (apply Z.pow_pos_nonneg; lia).
    assert (H2 : 0 <= shr_m (SpecFloat.iter_pos shr_1 n mrs)).
    { rewrite IH by assumption. apply Z.div_pos; lia. }
    rewrite IH, IH by assumption.
    rewrite !Z.div_div by lia.
    f_equal. rewrite (Pos2Z.inj_xO n).
    replace (2 * Zpos n) with (Zpos n + Zpos n) by lia.
    rewrite !Z.pow_add_r by lia. ring.
  - rewrite shr_1_m by assumption. reflexivity.
Qed.

(** [shr] divides a non-negative mantissa by the power of two it shifts by. *)
Lemma shr_spec mrs e n mrs' e' :
  0 <= shr_m mrs -> shr mrs e n = (mrs', e') ->
  shr_m mrs' = shr_m mrs / 2 ^ Z.max 0 n /\ e' = e + Z.max 0 n.
Proof.
  intros Hm. unfold shr. destruct n as [|p|p]; intros E; inversion E; subst.
  - simpl. rewrite Z.div_1_r. lia.
  - rewrite iter_shr_1_m by assumption. rewrite Z.max_r by lia. lia.
  - simpl. rewrite Z.div_1_r. lia.
Qed.

Lemma round_nearest_even_bounds m l :
  m <= round_nearest_even m l <= m + 1.
Proof.
  unfold round_nearest_even. destruct l as [|[| |]]; try lia.
  destruct (Z.even m); lia.
Qed.

Lemma shr_record_of_loc_m m l : shr_m (shr_record_of_loc m l) = m.
Proof. now destruct l as [|[| |]]. Qed.

(** Rounding a mantissa of full width whose magnitude is below the
    largest binade cannot overflow. *)
Lemma round_aux_finite sx p ex :
  prec <= Zpos (digits2_pos p) -> Zpos (digits2_pos p) + ex <= emax - 1 ->
  sf_finite (binary_round_aux prec emax sx (Zpos p) ex loc_Exact) = true.
Proof.
  intros Hd Hmag. unfold binary_round_aux.
  destruct (shr_fexp prec emax (Zpos p) ex loc_Exact) as [mrs1 e1] eqn:E1.
  unfold shr_fexp in E1. apply shr_spec in E1; [|simpl; lia].
  destruct E1 as [Hm1 He1]. simpl shr_m in Hm1. simpl Zdigits2 in He1, Hm1.
  set (d := Zpos (digits2_pos p)) in *.
  set (N1 := Z.max 0 (fexp prec emax (d + ex) - ex)) in *.
  assert (HN1 : 0 <= N1) by lia.
  assert (P1 : 0 < 2 ^ N1) by (apply Z.pow_pos_nonneg; lia).
  assert (Hm1pos : 0 <= shr_m mrs1).
  { rewrite Hm1. apply Z.div_pos; lia. }
  pose proof (round_nearest_even_bounds (shr_m mrs1) (loc_of_shr_record mrs1)) as Hrne.
  set (m1 := round_nearest_even (shr_m mrs1) (loc_of_shr_record mrs1)) in *.
  assert (D : Zdigits2 m1 <= Z.max (d - N1) 0 + 1).
  { apply Zdigits2_le; [lia|]. split; [lia|].
    assert (B : shr_m mrs1 < 2 ^ Z.max (d - N1) 0).
    { rewrite Hm1. apply Z.div_lt_upper_bound; [lia|].
      rewrite <- Z.pow_add_r by lia.
      pose proof (digits_lt_pow p) as G. fold d in G.
      eapply Z.lt_le_trans; [exact G|].
      apply Z.pow_le_mono_r; lia. }
    rewrite Z.pow_add_r, Z.pow_1_r by lia. lia. }
  destruct (shr_fexp prec emax m1 e1 loc_Exact) as [mrs2 e2] eqn:E2.
  unfold shr_fexp in E2. apply shr_spec in E2; [|simpl; lia].
  destruct E2 as [Hm2 He2]. simpl shr_m in Hm2.
  assert (Hm2pos : 0 <= shr_m mrs2).
  { rewrite Hm2. apply Z.div_pos; [lia|]. apply Z.pow_pos_nonneg; lia. }
  destruct (shr_m mrs2) as [|q|q]; [reflexivity| |lia].
  assert (Hle : (e2 <=? emax - prec) = true).
  { apply Z.leb_le. subst e2 e1 N1. unfold fexp, emin, prec, emax in *. lia. }
  rewrite Hle. reflexivity.
Qed.

Lemma digits_mul_le p q :
  Zpos (digits2_pos (p * q)) <= Zpos (digits2_pos p) + Zpos (digits2_pos q).
Proof.
  apply (Zdigits2_le (Zpos (p * q))); [lia|]. split; [lia|].
  rewrite Pos2Z.inj_mul, Z.pow_add_r by lia.
  pose proof (digits_lt_pow p). pose proof (digits_lt_pow q).
  apply Z.mul_lt_mono_nonneg; lia.
Qed.

Lemma digits_ge p k : 0 <= k -> 2 ^ k <= Zpos p -> k < Zpos (digits2_pos p).
Proof.
  intros Hk Hp. pose proof (digits_lt_pow p) as G.
  apply (Z.pow_lt_mono_r_iff 2); lia.
Qed.

Lemma valid_magnitude s m e :
  valid_binary (S754_finite s m e) = true -> Zpos (digits2_pos m) + e <= emax.
Proof.
  unfold valid_binary, bounded, canonical_mantissa, fexp, emin, prec, emax.
  intros Hb. apply andb_true_iff in Hb as [Hc He].
  apply Z.eqb_eq in Hc. apply Z.leb_le in He. lia.
Qed.

Local Close Scope Z_scope.
Local Open Scope float_scope.

Lemma DEG2RAD_spec : Prim2SF DEG2RAD = S754_finite false 5030569068109113 (-58).
Proof. vm_compute. reflexivity. Qed.

(** The product with the constant of [radians], which is below one,
    keeps a finite number finite. *)
Lemma mul_DEG2RAD_finite x : is_finite x = true -> is_finite (x * DEG2RAD) = true.
Proof.
  rewrite !is_finite_spec, mul_spec, DEG2RAD_spec.
  pose proof (Prim2SF_valid x) as Hv.
  destruct (Prim2SF x) as [s|s| |s m e]; try discriminate; [reflexivity|].
  intros _. unfold SF64mul, SFmul.
  pose proof (valid_magnitude s m e Hv) as Hmag.
  pose proof (digits_mul_le m 5030569068109113) as Hmul.
  change (Zpos (digits2_pos 5030569068109113)) with 53%Z in Hmul.
  apply round_aux_finite.
  - assert (52 < Zpos (digits2_pos (m * 5030569068109113)))%Z; [|unfold prec; lia].
    apply digits_ge; [lia|]. rewrite Pos2Z.inj_mul.
    assert (2 ^ 52 <= 5030569068109113)%Z by (vm_compute; discriminate).
    nia.
  - unfold emax in *. lia.
Qed.

(** On doubles 90 degrees become the double nearest to pi/2, and the
    infinities and NaN are passed on. *)
Lemma radians_special :
  radians 90 = 0x1.921fb54442d18p+0
  /\ radians (-90) = -0x1.921fb54442d18p+0
  /\ radians infinity = infinity
  /\ radians neg_infinity = neg_infinity
  /\ radians nan = nan.
Proof. repeat split; vm_compute; reflexivity. Qed.

Lemma radians_finite x : is_finite x = true -> is_finite (radians x) = true.
Proof. apply mul_DEG2RAD_finite. Qed.

Lemma is_zero_finite x : is_zero x = true -> is_finite x = true.
Proof.
  rewrite is_zero_spec, is_finite_spec. now destruct (Prim2SF x).
Qed.

Lemma coarse_conforms : conforms coarse.
Proof.
  split; intros x Hx; simpl; rewrite Hx; reflexivity.
Qed.

(** With a radius that is a zero and finite angles every component is a
    zero. *)
Lemma transform_zero_radius (L : LibM) (R theta phi : float) :
  conforms L -> is_zero R = true ->
  is_finite theta = true -> is_finite phi = true ->
  is_zero (transform L R theta phi).1.1 = true
  /\ is_zero (transform L R theta phi).1.2 = true
  /\ is_zero (transform L R theta phi).2 = true.
Proof.
  intros HL HR Ht Hp. unfold transform, spherical_to_cartesian_custom; simpl.
  pose proof (cos_finite L HL _ (radians_finite _ Ht)) as Ct.
  pose proof (sin_finite L HL _ (radians_finite _ Ht)) as St.
  pose proof (cos_finite L HL _ (radians_finite _ Hp)) as Cp.
  pose proof (sin_finite L HL _ (radians_finite _ Hp)) as Sp.
  repeat split; repeat apply mul_zero_finite; assumption.
Qed.

(** An angle that is an infinity or a NaN makes every component NaN,
    also at radius zero. *)
Lemma transform_not_finite (L : LibM) (theta phi : float) :
  conforms L -> is_finite theta = false -> is_finite (radians theta) = false ->
  transform L 0 theta phi = (nan, nan, nan).
Proof.
  intros HL Ht Hr. unfold transform, spherical_to_cartesian_custom; simpl.
  rewrite (is_nan_eq _ (cos_not_finite L HL _ Hr)).
  rewrite (is_nan_eq _ (sin_not_finite L HL _ Hr)).
  rewrite !mul_nan_r, !mul_nan_l. reflexivity.
Qed.
End Binary64Facts.

(** The claim of C3 fails on doubles when an angle is an infinity or a
    NaN (both are values that [float] reads from a cell): the cosine and
    the sine of the angle are NaN, the product of zero with NaN is NaN,
    and NaN is not equal to 0. *)
Lemma C3_counterexample :
  (forall L : Binary64.LibM, Binary64.conforms L ->
     Binary64.transform L 0 infinity 0 = (nan, nan, nan)
     /\ Binary64.transform L 0 nan 0 = (nan, nan, nan))
  /\ Binary64.triple_eqb (nan, nan, nan) (0, 0, 0)%float = false
  /\ Binary64.triple_eqb (Binary64.transform Binary64.coarse 0 infinity 0)
                         (0, 0, 0)%float = false.
Proof.
  split; [|split; reflexivity].
  intros L HL. split; apply Binary64Facts.transform_not_finite;
    solve [assumption | reflexivity].
Qed.

(** C3, amended: on doubles, for every finite theta and phi (neither an
    infinity nor a NaN) the transform at radius zero is equal to
    (0, 0, 0): every component is a zero, of either sign. *)
Theorem C3_zero_radius (L : Binary64.LibM) (R theta phi : float) :
  Binary64.conforms L ->
  (R =? 0)%float = true ->
  is_finite theta = true -> is_finite phi = true ->
  Binary64.triple_eqb (Binary64.transform L R theta phi) (0, 0, 0)%float = true.
Proof.
  intros HL HR Ht Hp.
  destruct (Binary64Facts.transform_zero_radius L R theta phi HL HR Ht Hp)
    as (Hx & Hy & Hz).
  unfold Binary64.triple_eqb.
  apply andb_true_intro; split; [apply andb_true_intro; split|];
    [exact Hx | exact Hy | exact Hz].
Qed.

(** C3 at theta = 30, phi = 45 with the coarse libm. *)
Lemma C3_zero_radius_witness :
  Binary64.triple_eqb (Binary64.transform Binary64.coarse 0 30 45)
                      (0, 0, 0)%float = true.
Proof.
  apply (C3_zero_radius Binary64.coarse 0 30 45 Binary64Facts.coarse_conforms);
    reflexivity.
Defined.

(** * Further properties of the script *)

(** ** The transform on doubles *)

Module Binary64More.
Import Binary64 Binary64Facts.
Local Open Scope float_scope.

Lemma round_aux_opp sx mx ex lx :
  SFopp (binary_round_aux prec emax sx mx ex lx)
  = binary_round_aux prec emax (negb sx) mx ex lx.
Proof.
  unfold binary_round_aux.
  destruct (shr_fexp prec emax mx ex lx) as [mrs1 e1].
  destruct (shr_fexp prec emax _ e1 loc_Exact) as [mrs2 e2].
  destruct (shr_m mrs2); try reflexivity.
  destruct (Z.leb e2 (emax - prec)); reflexivity.
Qed.

Lemma SFmul_opp_l x y :
  SFmul prec emax (SFopp x) y = SFopp (SFmul prec emax x y).
Proof.
  destruct x as [sx|sx| |sx mx ex], y as [sy|sy| |sy my ey]; simpl;
    try reflexivity; try (now destruct sx, sy).
  rewrite round_aux_opp. f_equal. now destruct sx, sy.
Qed.

Lemma mul_opp_l a b : (- a) * b = - (a * b).
Proof.
  apply Prim2SF_inj. rewrite mul_spec, !opp_spec, mul_spec. apply SFmul_opp_l.
Qed.

Lemma radians_not_finite x : is_finite x = false -> is_finite (radians x) = false.
Proof.
  unfold radians. rewrite !is_finite_spec, mul_spec, DEG2RAD_spec.
  destruct (Prim2SF x) as [s|s| |s m e]; try discriminate; reflexivity.
Qed.

Lemma radians_finite_iff x : is_finite (radians x) = is_finite x.
Proof.
  destruct (is_finite x) eqn:E.
  - now apply radians_finite.
  - now apply radians_not_finite.
Qed.
End Binary64More.

(** X5: on doubles the conversion to radians keeps a finite angle finite
    (the product with the constant below one cannot overflow) and an
    infinity or a NaN stays one: the result is finite exactly when the
    argument is. *)
Theorem X5_radians_finite (x : float) :
  is_finite (Binary64.radians x) = is_finite x.
Proof. apply Binary64More.radians_finite_iff. Qed.

(** X6: on doubles a NaN radius, or a theta that is an infinity or a
    NaN, makes all three coordinates NaN; a phi that is an infinity or a
    NaN makes x and y NaN.  Nothing is raised: the NaN reaches the
    plot. *)
Theorem X6_nan_propagates (L : Binary64.LibM) (R theta phi : float) :
  Binary64.conforms L ->
  (is_nan R = true -> Binary64.transform L R theta phi = (nan, nan, nan))
  /\ (is_finite theta = false ->
      Binary64.transform L R theta phi = (nan, nan, nan))
  /\ (is_finite phi = false ->
      (Binary64.transform L R theta phi).1.1 = nan
      /\ (Binary64.transform L R theta phi).1.2 = nan).
Proof.
  intros HL. unfold Binary64.transform, spherical_to_cartesian_custom; simpl.
  split; [|split].
  - intros HR. rewrite (Binary64Facts.is_nan_eq _ HR).
    now rewrite !Binary64Facts.mul_nan_l.
  - intros Ht. apply Binary64More.radians_not_finite in Ht.
    rewrite (Binary64Facts.is_nan_eq _ (Binary64.cos_not_finite L HL _ Ht)).
    rewrite (Binary64Facts.is_nan_eq _ (Binary64.sin_not_finite L HL _ Ht)).
    now rewrite !Binary64Facts.mul_nan_r, !Binary64Facts.mul_nan_l.
  - intros Hp. apply Binary64More.radians_not_finite in Hp.
    rewrite (Binary64Facts.is_nan_eq _ (Binary64.cos_not_finite L HL _ Hp)).
    rewrite (Binary64Facts.is_nan_eq _ (Binary64.sin_not_finite L HL _ Hp)).
    now rewrite !Binary64Facts.mul_nan_r.
Qed.

(** X6 at radius 5 and theta = -infinity. *)
Lemma X6_nan_propagates_witness :
  Binary64.transform Binary64.coarse 5 neg_infinity 45 = (nan, nan, nan).
Proof.
  apply (X6_nan_propagates Binary64.coarse 5 neg_infinity 45
           Binary64Facts.coarse_conforms).
  reflexivity.
Defined.

(** X7: on doubles the transform of the negated radius is the triple of
    the negated coordinates, whatever the angles and the libm.  The
    equality is that of the model of doubles: signed zeros and
    infinities are told apart, the NaNs are one value. *)
Theorem X7_negated_radius (L : Binary64.LibM) (R theta phi : float) :
  Binary64.transform L (- R) theta phi
  = (- (Binary64.transform L R theta phi).1.1,
     - (Binary64.transform L R theta phi).1.2,
     - (Binary64.transform L R theta phi).2)%float.
Proof.
  unfold Binary64.transform, spherical_to_cartesian_custom; simpl.
  now rewrite !Binary64More.mul_opp_l.
Qed.

(** ** The whole run *)

Section RunFacts.
Context {F : Type} `{Arith F}.
Variable py_float : string -> option F.

Lemma loaded_nil (st : store F) :
  loaded py_float [] st -> test_points st = [] /\ real_points st = [].
Proof.
  intros HL. destruct (loaded_lengths py_float _ _ HL) as (N1 & _).
  unfold test_points, real_points.
  destruct (R_list st); [split; reflexivity | discriminate].
Qed.

(** With no rows the run gets past the loader and stops at the
    unpacking. *)
Lemma script_empty (records : list (list string)) :
  DictReader records = [] ->
  load py_float (Some records) initial = (Return tt, initial)
  /\ script py_float (Some records) initial = (Raise ValueError_unpack, initial).
Proof.
  intros E.
  assert (EL : load py_float (Some records) initial = (Return tt, initial)).
  { unfold load. rewrite E. reflexivity. }
  split; [exact EL|]. rewrite (script_load_return _ _ _ _ EL). reflexivity.
Qed.

End RunFacts.

(** X10: a table without data rows (an empty file, a header alone, or
    only blank records after it) gets past the loader with five empty
    lists and then stops at the unpacking with a ValueError, whatever
    its header; nothing is plotted. *)
Theorem X10_no_data_rows {F : Type} {A : Arith F} (py_float : string -> option F)
    (records : list (list string)) :
  DictReader records = [] ->
  load py_float (Some records) initial = (Return tt, initial)
  /\ script py_float (Some records) initial = (Raise ValueError_unpack, initial).
Proof. apply script_empty. Qed.

(** X10 at the complete header followed by two blank records. *)
Lemma X10_no_data_rows_witness :
  script Sample.decimal (Some [required; []; []]) initial
  = (Raise ValueError_unpack, initial).
Proof.
  apply (X10_no_data_rows Sample.decimal [required; []; []]). reflexivity.
Defined.

(** X11: the connecting loop does not need lists of equal length: for
    any two lists it adds one segment per pair of the zip, as many as
    the shorter list has points, and these are the plot calls among the
    calls of the rendering. *)
Theorem X11_shorter_list {F : Type} (test_xyz real_xyz : list (F * F * F)) (st : store F) :
  connect test_xyz real_xyz st
  = (Return tt, draw (segment <$> zip test_xyz real_xyz) st)
  /\ length (segment <$> zip test_xyz real_xyz)
     = Nat.min (length test_xyz) (length real_xyz)
  /\ length (segments (drawing test_xyz real_xyz))
     = Nat.min (length test_xyz) (length real_xyz).
Proof.
  split; [apply connect_draw|]. split.
  - now rewrite length_fmap, length_zip_with.
  - now rewrite segments_drawing, length_fmap, length_zip_with.
Qed.

(** ** The loader's view of a table *)

Section ColumnFacts.
Context {F : Type}.
Variable py_float : string -> option F.

Lemma cells_lookup (l : list (string * string)) k :
  NoDup l.*1 ->
  foldl (fun d kv => <[kv.1 := Some kv.2]> d) (∅ : gmap string (option string)) l !! k
  = (fun v => Some v) <$> (list_to_map l : gmap string string) !! k.
Proof.
  intros Hnd. destruct ((list_to_map l : gmap string string) !! k) as [v|] eqn:E.
  - apply elem_of_list_to_map in E; [|exact Hnd]. simpl.
    now apply cells_lookup_in.
  - apply not_elem_of_list_to_map in E. simpl.
    rewrite cells_lookup_notin by exact E. apply lookup_empty.
Qed.

(** Permuting the columns of the header and of a record alike gives the
    same row. *)
Lemma dict_row_perm (h h' r r' : list string) :
  NoDup h -> length r = length h -> length r' = length h' ->
  zip h' r' ≡ₚ zip h r ->
  dict_row h' r' = dict_row h r.
Proof.
  intros Hnd Hr Hr' Hperm. unfold dict_row.
  rewrite !drop_ge by lia. simpl.
  assert (Hnd1 : NoDup (zip h r).*1) by now apply NoDup_fst_zip.
  assert (Hnd2 : NoDup (zip h' r').*1).
  { eapply NoDup_Permutation_proper; [|exact Hnd1]. now rewrite Hperm. }
  apply map_eq. intros k. rewrite !cells_lookup by assumption.
  f_equal. f_equal. now apply list_to_map_proper.
Qed.

Lemma perm_blank (h h' r r' : list string) :
  length r = length h -> length r' = length h' ->
  zip h' r' ≡ₚ zip h r -> (r = [] <-> r' = []).
Proof.
  intros Hr Hr' Hperm. apply Permutation_length in Hperm.
  rewrite !length_zip_with in Hperm.
  split; intros ->; [destruct r' | destruct r]; simpl in *; try reflexivity; lia.
Qed.

Lemma DictReader_perm (h h' : list string) (rest rest' : list (list string)) :
  NoDup h ->
  Forall2 (fun r r' => length r = length h /\ length r' = length h'
                       /\ zip h' r' ≡ₚ zip h r) rest rest' ->
  DictReader (h' :: rest') = DictReader (h :: rest).
Proof.
  intros Hnd HF. simpl.
  induction HF as [|r r' rest rest' (Hr & Hr' & Hperm) _ IH]; [reflexivity|].
  rewrite !filter_cons.
  pose proof (perm_blank h h' r r' Hr Hr' Hperm) as Hb.
  destruct (decide (r' ≠ [])) as [Hn'|Hn'], (decide (r ≠ [])) as [Hn|Hn].
  - rewrite !fmap_cons. f_equal; [now apply dict_row_perm | exact IH].
  - exfalso. apply Hn'. apply Hb. destruct r; [reflexivity | now exfalso; apply Hn].
  - exfalso. apply Hn. apply Hb. destruct r'; [reflexivity | now exfalso; apply Hn'].
  - exact IH.
Qed.

(** The loop body reads a row through its five required cells only. *)
Lemma load_row_agree (row row' : gmap string (option string)) (st : store F) :
  (forall k, k ∈ required -> row !! k = row' !! k) ->
  load_row py_float row st = load_row py_float row' st.
Proof.
  intros Hk. rewrite !load_row_cells. unfold cell.
  rewrite !Hk by (unfold required; set_solver). reflexivity.
Qed.

Lemma for_each_load_agree (rows rows' : list (gmap string (option string))) (st : store F) :
  Forall2 (fun row row' => forall k, k ∈ required -> row !! k = row' !! k) rows rows' ->
  for_each (load_row py_float) rows st = for_each (load_row py_float) rows' st.
Proof.
  intros HF. revert st. induction HF as [|row row' rows rows' Hrow _ IH]; intros st;
    [reflexivity|].
  simpl. unfold mbind, M_bind. rewrite (load_row_agree row row' st Hrow).
  destruct (load_row py_float row' st) as [[[]|e] st1]; [apply IH | reflexivity].
Qed.
End ColumnFacts.

(** X12: the order of the columns does not matter: with distinct header
    names, permuting the header and every record in the same way gives
    the same rows, hence the same load and the same run. *)
Theorem X12_column_order {F : Type} {A : Arith F} (py_float : string -> option F)
    (h h' : list string) (rest rest' : list (list string)) (st : store F) :
  NoDup h ->
  Forall2 (fun r r' => length r = length h /\ length r' = length h'
                       /\ zip h' r' ≡ₚ zip h r) rest rest' ->
  DictReader (h' :: rest') = DictReader (h :: rest)
  /\ load py_float (Some (h' :: rest')) st = load py_float (Some (h :: rest)) st
  /\ script py_float (Some (h' :: rest')) st = script py_float (Some (h :: rest)) st.
Proof.
  intros Hnd HF. pose proof (DictReader_perm h h' rest rest' Hnd HF) as E.
  split; [exact E|].
  assert (EL : load py_float (Some (h' :: rest')) = load py_float (Some (h :: rest))).
  { unfold load. now rewrite E. }
  split; [now rewrite EL|]. unfold script. now rewrite EL.
Qed.

(** X12 at a table whose first two columns were swapped. *)
Lemma X12_column_order_witness :
  load Sample.decimal
       (Some [[col_test_theta; col_R; col_test_phi; col_real_theta; col_real_phi];
              ["30"; "10"; "45"; "32"; "44"]]) initial
  = load Sample.decimal
         (Some [required; ["10"; "30"; "45"; "32"; "44"]]) initial.
Proof.
  destruct (X12_column_order Sample.decimal required
              [col_test_theta; col_R; col_test_phi; col_real_theta; col_real_phi]
              [["10"; "30"; "45"; "32"; "44"]] [["30"; "10"; "45"; "32"; "44"]] initial)
    as (_ & E & _).
  - apply (bool_decide_unpack _). vm_compute. exact I.
  - constructor; [|constructor]. split; [reflexivity|]. split; [reflexivity|].
    apply perm_swap.
  - exact E.
Defined.

(** X13: the loader reads a row through its five required cells only:
    two tables whose rows agree on those cells load, and run, alike,
    whatever other columns they have. *)
Theorem X13_other_columns {F : Type} {A : Arith F} (py_float : string -> option F)
    (records records' : list (list string)) (st : store F) :
  Forall2 (fun row row' => forall k, k ∈ required -> row !! k = row' !! k)
          (DictReader records) (DictReader records') ->
  load py_float (Some records) st = load py_float (Some records') st
  /\ script py_float (Some records) st = script py_float (Some records') st.
Proof.
  intros HF.
  assert (EL : load py_float (Some records) st = load py_float (Some records') st).
  { unfold load. now apply for_each_load_agree. }
  split; [exact EL|]. unfold script, mbind, M_bind. now rewrite EL.
Qed.

(** X13 at a table with a sixth column. *)
Lemma X13_other_columns_witness :
  load Sample.decimal
       (Some [required ++ ["Note"]; ["10"; "30"; "45"; "32"; "44"; "windy"]]) initial
  = load Sample.decimal (Some [required; ["10"; "30"; "45"; "32"; "44"]]) initial.
Proof.
  destruct (X13_other_columns Sample.decimal
              [required ++ ["Note"]; ["10"; "30"; "45"; "32"; "44"; "windy"]]
              [required; ["10"; "30"; "45"; "32"; "44"]] initial) as (E & _).
  - constructor; [|constructor]. intros k Hk. unfold required in Hk.
    repeat (apply elem_of_cons in Hk as [->|Hk]);
      try (now apply elem_of_nil in Hk); vm_compute; reflexivity.
  - exact E.
Defined.

(** ** What the loader keeps *)

Section KeepFacts.
Context {F : Type}.
Variable py_float : string -> option F.

Lemma extends_refl (st : store F) : extends st st.
Proof. unfold extends. repeat split; reflexivity. Qed.

Lemma extends_trans (st1 st2 st3 : store F) :
  extends st1 st2 -> extends st2 st3 -> extends st1 st3.
Proof.
  intros (A1 & A2 & A3 & A4 & A5 & A6) (B1 & B2 & B3 & B4 & B5 & B6).
  unfold extends. repeat split; first [etransitivity; eassumption | congruence].
Qed.

Lemma load_row_extends row (st : store F) :
  extends st (load_row py_float row st).2.
Proof.
  rewrite load_row_cells. unfold extends.
  destruct (cell py_float row col_R); [|simpl; repeat split; reflexivity].
  destruct (cell py_float row col_test_theta);
    [|simpl; repeat split; first [reflexivity | apply prefix_app_r; reflexivity]].
  destruct (cell py_float row col_test_phi);
    [|simpl; repeat split; first [reflexivity | apply prefix_app_r; reflexivity]].
  destruct (cell py_float row col_real_theta);
    [|simpl; repeat split; first [reflexivity | apply prefix_app_r; reflexivity]].
  destruct (cell py_float row col_real_phi);
    simpl; repeat split; first [reflexivity | apply prefix_app_r; reflexivity].
Qed.

Lemma load_rows_extends rows (st : store F) :
  extends st (for_each (load_row py_float) rows st).2.
Proof.
  revert st. induction rows as [|row rows IH]; intros st; simpl.
  - apply extends_refl.
  - unfold mbind, M_bind. pose proof (load_row_extends row st) as E1.
    destruct (load_row py_float row st) as [[[]|e] st1]; simpl in E1.
    + eapply extends_trans; [exact E1 | apply IH].
    + exact E1.
Qed.

Lemma load_row_in_step row (st : store F) :
  aligned st ->
  match load_row py_float row st with
  | (Return _, st') => aligned st' /\ length (R_list st') = length (R_list st) + 1
  | (Raise _, st') => in_step st' /\ length (phi_real st') = length (R_list st)
  end.
Proof.
  intros (N2 & N3 & N4 & N5). rewrite load_row_cells.
  unfold aligned, in_step.
  destruct (cell py_float row col_R); [|simpl; lia].
  destruct (cell py_float row col_test_theta); [|simpl; rewrite !length_app; simpl; lia].
  destruct (cell py_float row col_test_phi); [|simpl; rewrite !length_app; simpl; lia].
  destruct (cell py_float row col_real_theta); [|simpl; rewrite !length_app; simpl; lia].
  destruct (cell py_float row col_real_phi); simpl; rewrite !length_app; simpl; lia.
Qed.

Lemma load_rows_in_step rows (st : store F) :
  aligned st ->
  match for_each (load_row py_float) rows st with
  | (Return _, st') => aligned st' /\ length (R_list st') = length (R_list st) + length rows
  | (Raise _, st') => in_step st' /\ length (phi_real st') < length (R_list st) + length rows
  end.
Proof.
  revert st. induction rows as [|row rows IH]; intros st Hal; simpl.
  - split; [exact Hal | lia].
  - unfold mbind, M_bind. pose proof (load_row_in_step row st Hal) as E1.
    destruct (load_row py_float row st) as [[[]|e] st1].
    + destruct E1 as [Hal1 N1]. pose proof (IH st1 Hal1) as E2.
      destruct (for_each (load_row py_float) rows st1) as [[[]|e] st2].
      * destruct E2 as [Hal2 N2]. split; [exact Hal2 | lia].
      * destruct E2 as [Hs N2]. split; [exact Hs | lia].
    + destruct E1 as [Hs N1]. split; [exact Hs | lia].
Qed.
End KeepFacts.

(** X14: the loader only appends: from any store and with any outcome,
    each of the five lists it leaves starts with the list it found, and
    the figure is untouched. *)
Theorem X14_append_only {F : Type} (py_float : string -> option F)
    (file : option (list (list string))) (st : store F) :
  extends st (load py_float file st).2.
Proof.
  destruct file as [records|]; simpl.
  - apply load_rows_extends.
  - apply extends_refl.
Qed.

(** X15: the five lists stay in step: started on equally long lists, a
    load that returns leaves them equally long and longer by the number
    of data rows; a load that raises leaves each list at most as long
    as the one filled before it and the first at most one longer than
    the last, the row that raised being the only one held in part. *)
Theorem X15_in_step {F : Type} (py_float : string -> option F)
    (records : list (list string)) (st : store F) :
  aligned st ->
  match load py_float (Some records) st with
  | (Return _, st') =>
      aligned st'
      /\ length (R_list st') = length (R_list st) + length (DictReader records)
  | (Raise _, st') =>
      in_step st'
      /\ length (phi_real st') < length (R_list st) + length (DictReader records)
  end.
Proof. intros Hal. now apply load_rows_in_step. Qed.

(** X15 at the sample table that raises in its second data row. *)
Lemma X15_in_step_witness :
  in_step (load Sample.decimal (Some Sample.table_bad_cell) initial).2.
Proof.
  pose proof (X15_in_step Sample.decimal Sample.table_bad_cell initial) as E.
  assert (Hal : aligned (@initial R)) by (repeat split).
  specialize (E Hal).
  assert (Ev : load Sample.decimal (Some Sample.table_bad_cell) initial
               = (Raise (ValueError_float "sixty"),
                  Store [10%R; 12%R] [30%R] [45%R] [32%R] [44%R] []))
    by (vm_compute; reflexivity).
  rewrite Ev in E |- *. exact (proj1 E).
Defined.

(** X16: a data record that ends before a required column makes the
    loader raise a TypeError (the absent cell is None, and [float]
    rejects None), provided the required cells read before that column
    hold numbers; the run ends there with nothing plotted. *)
Theorem X16_short_record {F : Type} {A : Arith F} (py_float : string -> option F)
    (h r : list string) (rest : list (list string))
    (pre : list string) (k : string) (post : list string) (j : nat) :
  r <> [] ->
  required = pre ++ k :: post ->
  h !! j = Some k -> length r <= j ->
  Forall (fun k' => is_Some (parsed py_float (dict_row h r) k')) pre ->
  exists st,
    load py_float (Some (h :: r :: rest)) initial = (Raise TypeError_float, st)
    /\ script py_float (Some (h :: r :: rest)) initial = (Raise TypeError_float, st)
    /\ figure st = [].
Proof.
  intros Hr Ereq Hk Hj Hpre.
  assert (Hbad : first_failure py_float (dict_row h r) required = Some TypeError_float).
  { rewrite Ereq. apply first_failure_at; [exact Hpre|].
    unfold cell. now rewrite (dict_row_short h r j k Hk Hj). }
  destruct (load_rows_raise py_float [] (dict_row h r)
              (dict_row h <$> filter (fun r => r ≠ []) rest) _ (List.Forall_nil _) Hbad)
    as (_ & st & _ & _ & _ & Er & Efig).
  assert (EL : load py_float (Some (h :: r :: rest)) initial = (Raise TypeError_float, st)).
  { unfold load, DictReader. rewrite filter_cons.
    destruct (decide (r ≠ [])); [exact Er | contradiction]. }
  exists st. split; [exact EL|]. split; [now apply script_load_raise | exact Efig].
Qed.

(** X16 at the sample table whose first data record holds the radius
    only. *)
Lemma X16_short_record_witness :
  exists st,
    script Sample.decimal (Some Sample.table_short_row) initial
    = (Raise TypeError_float, st)
    /\ figure st = [].
Proof.
  destruct (X16_short_record Sample.decimal required ["10"]
              [["12"; "sixty"; "90"; "61"; "88"]]
              [col_R] col_test_theta [col_test_phi; col_real_theta; col_real_phi] 1)
    as (st & _ & Es & Efig).
  - discriminate.
  - reflexivity.
  - reflexivity.
  - simpl. lia.
  - constructor; [|constructor]. vm_compute. eexists. reflexivity.
  - exists st. split; [exact Es | exact Efig].
Defined.

(** * Rounding error of the transform on doubles *)

Module Binary64RFacts.
Import Binary64 Binary64Facts Binary64R.

Section Integers.
Local Open Scope Z_scope.

(** What [binary_round_aux] returns, when it is a finite number: the
    mantissa it was given, shifted right by [N] bits and off by at most
    one unit of the kept bits. *)
Lemma round_aux_value s M E s' m e :
  binary_round_aux prec emax s (Zpos M) E loc_Exact = S754_finite s' m e ->
  s' = s /\ exists N, 0 <= N /\ e = E + N
                      /\ Z.abs (Zpos m * 2 ^ N - Zpos M) <= 2 ^ N.
Proof.
  unfold binary_round_aux.
  destruct (shr_fexp prec emax (Zpos M) E loc_Exact) as [mrs1 e1] eqn:E1.
  unfold shr_fexp in E1. apply shr_spec in E1; [|simpl; lia].
  destruct E1 as [Hm1 He1]. simpl shr_m in Hm1. simpl Zdigits2 in He1, Hm1.
  set (d := Zpos (digits2_pos M)) in *.
  set (N1 := Z.max 0 (fexp prec emax (d + E) - E)) in *.
  assert (HN1 : 0 <= N1) by lia.
  assert (P1 : 0 < 2 ^ N1) by (apply Z.pow_pos_nonneg; lia).
  assert (Hm1pos : 0 <= shr_m mrs1).
  { rewrite Hm1. apply Z.div_pos; lia. }
  pose proof (round_nearest_even_bounds (shr_m mrs1) (loc_of_shr_record mrs1)) as Hrne.
  set (m1 := round_nearest_even (shr_m mrs1) (loc_of_shr_record mrs1)) in *.
  (* the first shift is a floor *)
  assert (Hfloor : shr_m mrs1 * 2 ^ N1 <= Zpos M < (shr_m mrs1 + 1) * 2 ^ N1).
  { rewrite Hm1. split.
    - rewrite Z.mul_comm. apply Z.mul_div_le. lia.
    - rewrite Z.mul_comm. apply Z.mul_succ_div_gt. lia. }
  (* the kept bits fit in 53 *)
  assert (Hfit : shr_m mrs1 < 2 ^ 53).
  { rewrite Hm1. apply Z.div_lt_upper_bound; [lia|].
    rewrite <- Z.pow_add_r by lia.
    pose proof (digits_lt_pow M) as G. fold d in G.
    eapply Z.lt_le_trans; [exact G|].
    apply Z.pow_le_mono_r; [lia|].
    subst N1. unfold fexp, emin, prec, emax. lia. }
  destruct (shr_fexp prec emax m1 e1 loc_Exact) as [mrs2 e2] eqn:E2.
  unfold shr_fexp in E2. apply shr_spec in E2; [|simpl; lia].
  destruct E2 as [Hm2 He2]. simpl shr_m in Hm2.
  set (N2 := Z.max 0 (fexp prec emax (Zdigits2 m1 + e1) - e1)) in *.
  (* the second shift is exact *)
  assert (Hexact : shr_m mrs2 * 2 ^ N2 = m1).
  { destruct (Z.eq_dec N2 0) as [Z2|NZ2].
    - rewrite Hm2, Z2. simpl. rewrite Z.div_1_r. lia.
    - assert (Hd1 : 54 <= Zdigits2 m1).
      { subst N2 e1 N1. unfold fexp, emin, prec, emax in *. lia. }
      assert (Hm1eq : m1 = 2 ^ 53).
      { assert (2 ^ 53 <= m1); [|lia].
        destruct m1 as [|q|q]; simpl in Hd1; try lia.
        pose proof (pow_le_digits q) as G.
        assert (2 ^ 54 <= 2 ^ Zpos (digits2_pos q)) by (apply Z.pow_le_mono_r; lia).
        lia. }
      assert (HN2 : N2 = 1).
      { subst N2. rewrite Hm1eq. change (Zdigits2 (2 ^ 53)) with 54.
        subst e1 N1. unfold fexp, emin, prec, emax in *. lia. }
      rewrite Hm2, HN2, Hm1eq. reflexivity. }
  destruct (shr_m mrs2) as [|q|q] eqn:Eq; try discriminate.
  destruct (e2 <=? emax - prec); [|discriminate].
  intros Er. inversion Er; subst s' m e. split; [reflexivity|].
  exists (N1 + N2). assert (HN2 : 0 <= N2) by lia.
  split; [lia|]. split; [lia|].
  rewrite Z.pow_add_r by lia.
  assert (P2 : 0 < 2 ^ N2) by (apply Z.pow_pos_nonneg; lia).
  assert (Hq : Zpos q * (2 ^ N1 * 2 ^ N2) = m1 * 2 ^ N1) by (rewrite <- Hexact; ring).
  rewrite Hq. apply Z.abs_le. nia.
Qed.

Lemma normal_mantissa m : Zpos (digits2_pos m) = prec -> 2 ^ 52 <= Zpos m.
Proof.
  intros Hd. pose proof (pow_le_digits m) as G. rewrite Hd in G.
  unfold prec in G. change (2 ^ 53) with (2 * 2 ^ 52) in G. lia.
Qed.

(** Two units in the last place, relative to the exact mantissa. *)
Lemma two_ulps M m N :
  0 <= N -> 2 ^ 52 <= Zpos m ->
  Z.abs (Zpos m * 2 ^ N - Zpos M) <= 2 ^ N ->
  2 ^ 51 * Z.abs (Zpos m * 2 ^ N - Zpos M) <= Zpos M.
Proof.
  intros HN Hm Habs.
  assert (P : 0 < 2 ^ N) by (apply Z.pow_pos_nonneg; lia).
  apply Z.abs_le in Habs.
  assert (HM : (2 ^ 52 - 1) * 2 ^ N <= Zpos M) by nia.
  assert (Hk : 2 ^ 51 * Z.abs (Zpos m * 2 ^ N - Zpos M) <= 2 ^ 51 * 2 ^ N).
  { apply Z.mul_le_mono_nonneg_l; [lia|]. apply Z.abs_le. lia. }
  assert (2 ^ 51 * 2 ^ N <= (2 ^ 52 - 1) * 2 ^ N); [|lia].
  apply Z.mul_le_mono_nonneg_r; lia.
Qed.
End Integers.

Section Reals.
Local Open Scope R_scope.

Lemma powerRZ_2_nonneg (N : Z) : (0 <= N)%Z -> powerRZ 2 N = IZR (2 ^ N).
Proof.
  intros HN. destruct N as [|n|n]; [reflexivity| |lia].
  change (2 ^ Z.pos n)%Z with (Z.pow_pos 2 n). now rewrite Zpower_pos_powerRZ.
Qed.

Lemma powerRZ_2_pos (e : Z) : 0 < powerRZ 2 e.
Proof. apply powerRZ_lt. lra. Qed.

Lemma sign_xorb (sx sy : bool) :
  (if xorb sx sy then -1 else 1)
  = (if sx then -1 else 1) * (if sy then -1 else 1).
Proof. destruct sx, sy; simpl; lra. Qed.

Lemma sign_abs (s : bool) : Rabs (if s then -1 else 1) = 1.
Proof.
  destruct s; [rewrite Rabs_left | rewrite Rabs_right]; lra.
Qed.

Lemma u_pos : 0 < u.
Proof. unfold u. apply Rinv_0_lt_compat. apply IZR_lt. reflexivity. Qed.

Lemma u_small : u <= 1.
Proof.
  unfold u. rewrite <- Rinv_1. apply Rinv_le_contravar; [lra|].
  apply IZR_le. discriminate.
Qed.

(** A product that comes out normal is within two units in the last
    place of the exact product. *)
Lemma SFmul_error x y :
  sf_normal (SFmul prec emax x y) = true ->
  Rabs (SF2R (SFmul prec emax x y) - SF2R x * SF2R y)
  <= u * Rabs (SF2R x * SF2R y).
Proof.
  destruct x as [sx|sx| |sx mx ex], y as [sy|sy| |sy my ey];
    try (simpl; discriminate).
  unfold SFmul.
  destruct (binary_round_aux prec emax (xorb sx sy) (Zpos (mx * my)) (ex + ey) loc_Exact)
    as [s|s| |s m e] eqn:Er; try (simpl; discriminate).
  unfold sf_normal. intros Hd. apply Z.eqb_eq in Hd.
  destruct (round_aux_value _ _ _ _ _ _ Er) as (-> & N & HN & -> & Habs).
  pose proof (two_ulps _ _ _ HN (normal_mantissa _ Hd) Habs) as H2.
  unfold SF2R.
  rewrite sign_xorb, powerRZ_add, (powerRZ_2_nonneg N HN) by lra.
  rewrite (powerRZ_add 2 ex ey) by lra.
  set (a := if sx then -1 else 1). set (b := if sy then -1 else 1).
  set (P := powerRZ 2 ex * powerRZ 2 ey).
  assert (HP : 0 < P).
  { unfold P. apply Rmult_lt_0_compat; apply powerRZ_2_pos. }
  replace (a * b * IZR (Zpos m) * (P * IZR (2 ^ N))
           - a * IZR (Zpos mx) * powerRZ 2 ex * (b * IZR (Zpos my) * powerRZ 2 ey))
    with (a * b * P * IZR (Zpos m * 2 ^ N - Zpos (mx * my))).
  2:{ rewrite minus_IZR, mult_IZR, Pos2Z.inj_mul, mult_IZR. unfold P. ring. }
  replace (a * IZR (Zpos mx) * powerRZ 2 ex * (b * IZR (Zpos my) * powerRZ 2 ey))
    with (a * b * P * IZR (Zpos (mx * my))).
  2:{ rewrite Pos2Z.inj_mul, mult_IZR. unfold P. ring. }
  rewrite !Rabs_mult. unfold a, b. rewrite !sign_abs, !Rmult_1_l.
  rewrite (Rabs_right P) by lra.
  rewrite <- abs_IZR. rewrite (Rabs_right (IZR (Zpos (mx * my))))
    by (apply Rle_ge, IZR_le; lia).
  apply IZR_le in H2. rewrite mult_IZR in H2.
  unfold u.
  assert (H51 : 0 < IZR (2 ^ 51)) by (apply IZR_lt; reflexivity).
  set (D := IZR (Z.abs (Zpos m * 2 ^ N - Zpos (mx * my)))) in *.
  set (MM := IZR (Zpos (mx * my))) in *.
  assert (HD : D <= / IZR (2 ^ 51) * MM).
  { apply (Rmult_le_reg_l (IZR (2 ^ 51))); [exact H51|].
    rewrite <- Rmult_assoc, Rinv_r, Rmult_1_l by lra. exact H2. }
  rewrite (Rmult_comm P D).
  replace (/ IZR (2 ^ 51) * (P * MM)) with ((/ IZR (2 ^ 51) * MM) * P) by ring.
  apply Rmult_le_compat_r; lra.
Qed.

(** The same on the kernel's doubles, also when a factor is a zero. *)
Lemma mul_error (a b : float) :
  no_flow a b = true ->
  Rabs (B2R (a * b) - B2R a * B2R b) <= u * Rabs (B2R a * B2R b).
Proof.
  unfold no_flow, is_normal, B2R. rewrite !is_finite_spec, !is_zero_spec, mul_spec.
  unfold SF64mul. intros H. apply orb_true_iff in H as [Hn|Hz].
  - now apply SFmul_error.
  - apply andb_true_iff in Hz as [Hf Hz].
    destruct (Prim2SF a) as [sa|sa| |sa ma ea], (Prim2SF b) as [sb|sb| |sb mb eb];
      simpl in Hz, Hf; try discriminate; simpl;
      rewrite ?Rmult_0_l, ?Rmult_0_r, Rminus_0_r, Rabs_R0; lra.
Qed.
Lemma Rabs_between (x y : R) : Rabs x <= y -> - y <= x <= y.
Proof. unfold Rabs. destruct (Rcase_abs x); lra. Qed.

Lemma sq_bounds (u v p : R) :
  0 <= u <= 1 -> Rabs (v - p) <= u * Rabs p ->
  (1 - u) * (1 - u) * (p * p) <= v * v <= (1 + u) * (1 + u) * (p * p).
Proof.
  intros Hu H.
  pose proof (Rabs_triang_inv2 v p) as T.
  pose proof (Rabs_pos v) as Pv. pose proof (Rabs_pos p) as Pp.
  assert (B : (1 - u) * Rabs p <= Rabs v <= (1 + u) * Rabs p).
  { assert (T' : Rabs (Rabs v - Rabs p) <= u * Rabs p) by lra.
    unfold Rabs at 1 in T'. destruct (Rcase_abs (Rabs v - Rabs p)); lra. }
  assert (Ev : v * v = Rabs v * Rabs v).
  { pose proof (Rsqr_abs v) as E. unfold Rsqr in E. exact E. }
  assert (Ep : p * p = Rabs p * Rabs p).
  { pose proof (Rsqr_abs p) as E. unfold Rsqr in E. exact E. }
  rewrite Ev, Ep. destruct B as [B1 B2].
  assert (P1 : 0 <= (1 - u) * Rabs p) by (apply Rmult_le_pos; lra).
  split.
  - replace ((1 - u) * (1 - u) * (Rabs p * Rabs p))
      with ((1 - u) * Rabs p * ((1 - u) * Rabs p)) by ring.
    apply Rmult_le_compat; assumption.
  - replace ((1 + u) * (1 + u) * (Rabs p * Rabs p))
      with ((1 + u) * Rabs p * ((1 + u) * Rabs p)) by ring.
    apply Rmult_le_compat; assumption.
Qed.

Lemma norm_bounds (u h Q C S C' S' A X Y Z : R) :
  0 <= u <= 1 -> 0 <= h <= 1 ->
  0 <= Q -> 0 <= C -> 0 <= S -> 0 <= C' -> 0 <= S' ->
  (1 - u) * (1 - u) * (Q * C) <= A <= (1 + u) * (1 + u) * (Q * C) ->
  (1 - u) * (1 - u) * (A * C') <= X <= (1 + u) * (1 + u) * (A * C') ->
  (1 - u) * (1 - u) * (A * S') <= Y <= (1 + u) * (1 + u) * (A * S') ->
  (1 - u) * (1 - u) * (Q * S) <= Z <= (1 + u) * (1 + u) * (Q * S) ->
  1 - h <= C + S <= 1 + h ->
  1 - h <= C' + S' <= 1 + h ->
  ((1 - u) * (1 - u)) * ((1 - u) * (1 - u)) * ((1 - h) * (1 - h)) * Q
  <= X + Y + Z
  <= ((1 + u) * (1 + u)) * ((1 + u) * (1 + u)) * ((1 + h) * (1 + h)) * Q.
Proof.
  intros Hu Hh HQ HC HS HC' HS' HA HX HY HZ HCS HCS'.
  assert (HU : 1 <= (1 + u) * (1 + u)) by nra.
  assert (HV : 0 <= (1 - u) * (1 - u) <= 1) by nra.
  remember ((1 + u) * (1 + u)) as U eqn:EU. remember ((1 - u) * (1 - u)) as V eqn:EV.
  clear EU EV Hu.
  destruct HV as [HV0 HV1].
  assert (HQC : 0 <= Q * C) by (apply Rmult_le_pos; lra).
  assert (HQS : 0 <= Q * S) by (apply Rmult_le_pos; lra).
  assert (HA0 : 0 <= A).
  { assert (0 <= V * (Q * C)) by (apply Rmult_le_pos; lra). lra. }
  assert (HAC : 0 <= A * C') by (apply Rmult_le_pos; lra).
  assert (HAS : 0 <= A * S') by (apply Rmult_le_pos; lra).
  split.
  - (* from below *)
    assert (L1 : V * (A * (1 - h)) <= X + Y).
    { assert (V * (A * (1 - h)) <= V * (A * (C' + S'))).
      { apply Rmult_le_compat_l; [lra|]. apply Rmult_le_compat_l; lra. }
      lra. }
    assert (L2 : V * (V * (Q * C) * (1 - h)) <= V * (A * (1 - h))).
    { apply Rmult_le_compat_l; [lra|]. apply Rmult_le_compat_r; lra. }
    assert (L3 : V * (V * (Q * S) * (1 - h)) <= V * (Q * S)).
    { apply Rmult_le_compat_l; [lra|].
      assert (V * (Q * S) * (1 - h) <= 1 * (Q * S) * 1); [|lra].
      apply Rmult_le_compat; try lra.
      - apply Rmult_le_pos; lra.
      - apply Rmult_le_compat_r; lra. }
    assert (L4 : V * V * (1 - h) * (Q * (1 - h)) <= V * V * (1 - h) * (Q * (C + S))).
    { apply Rmult_le_compat_l; [repeat apply Rmult_le_pos; lra|].
      apply Rmult_le_compat_l; lra. }
    replace (V * V * ((1 - h) * (1 - h)) * Q) with (V * V * (1 - h) * (Q * (1 - h))) by ring.
    replace (V * V * (1 - h) * (Q * (C + S)))
      with (V * (V * (Q * C) * (1 - h)) + V * (V * (Q * S) * (1 - h))) in L4 by ring.
    lra.
  - (* from above *)
    assert (U1 : X + Y <= U * (A * (1 + h))).
    { assert (U * (A * (C' + S')) <= U * (A * (1 + h))).
      { apply Rmult_le_compat_l; [lra|]. apply Rmult_le_compat_l; lra. }
      lra. }
    assert (U2 : U * (A * (1 + h)) <= U * (U * (Q * C) * (1 + h))).
    { apply Rmult_le_compat_l; [lra|]. apply Rmult_le_compat_r; lra. }
    assert (U3 : U * (Q * S) <= U * (U * (Q * S) * (1 + h))).
    { apply Rmult_le_compat_l; [lra|].
      assert (1 * (Q * S) * 1 <= U * (Q * S) * (1 + h)); [|lra].
      apply Rmult_le_compat; try lra.
      apply Rmult_le_compat_r; lra. }
    assert (U4 : U * U * (1 + h) * (Q * (C + S)) <= U * U * (1 + h) * (Q * (1 + h))).
    { apply Rmult_le_compat_l; [repeat apply Rmult_le_pos; lra|].
      apply Rmult_le_compat_l; lra. }
    replace (U * U * ((1 + h) * (1 + h)) * Q) with (U * U * (1 + h) * (Q * (1 + h))) by ring.
    replace (U * U * (1 + h) * (Q * (C + S)))
      with (U * (U * (Q * C) * (1 + h)) + U * (U * (Q * S) * (1 + h))) in U4 by ring.
    lra.
Qed.

(** The squared norm of the point the transform returns, in terms of the
    five rounded products. *)
Lemma norm2_tolerance (L : LibM) (eta : R) (R theta phi : float) :
  0 <= eta <= 1 ->
  pythagorean L eta (radians theta) ->
  pythagorean L eta (radians phi) ->
  products_ok L R theta phi = true ->
  (1 - u) * (1 - u) * ((1 - u) * (1 - u)) * ((1 - eta) * (1 - eta)) * (B2R R * B2R R)
  <= norm2 (transform L R theta phi)
  <= (1 + u) * (1 + u) * ((1 + u) * (1 + u)) * ((1 + eta) * (1 + eta)) * (B2R R * B2R R).
Proof.
  intros Heta Pt Pp Hok. unfold products_ok in Hok.
  apply andb_true_iff in Hok as [Hok H4]. apply andb_true_iff in Hok as [Hok H3].
  apply andb_true_iff in Hok as [H1 H2].
  apply mul_error in H1, H2, H3, H4.
  assert (Hu : 0 <= u <= 1) by (pose proof u_pos; pose proof u_small; lra).
  apply (sq_bounds u _ _ Hu) in H1, H2, H3, H4.
  unfold pythagorean in Pt, Pp. apply Rabs_between in Pt, Pp.
  unfold norm2, transform, spherical_to_cartesian_custom; simpl.
  set (t := radians theta) in *. set (p := radians phi) in *.
  set (r := B2R R) in *.
  set (c := B2R (m_cos L t)) in *. set (s := B2R (m_sin L t)) in *.
  set (c' := B2R (m_cos L p)) in *. set (s' := B2R (m_sin L p)) in *.
  set (a := B2R (R * m_cos L t)) in *.
  assert (Hsq : forall v : RbaseSymbolsImpl.R, 0 <= v * v) by (intros v; nra).
  apply (norm_bounds u eta (r * r) (c * c) (s * s) (c' * c') (s' * s') (a * a));
    [ exact Hu | exact Heta | apply Hsq | apply Hsq | apply Hsq | apply Hsq | apply Hsq
    | | | | | lra | lra ].
  - replace (r * r * (c * c)) with (r * c * (r * c)) by ring. exact H1.
  - replace (a * a * (c' * c')) with (a * c' * (a * c')) by ring. exact H2.
  - replace (a * a * (s' * s')) with (a * s' * (a * s')) by ring. exact H3.
  - replace (r * r * (s * s)) with (r * s * (r * s)) by ring. exact H4.
Qed.

Lemma norm2_on_sphere (L : LibM) (eta : R) (R theta phi : float) :
  0 <= eta <= 1 ->
  pythagorean L eta (radians theta) ->
  pythagorean L eta (radians phi) ->
  products_ok L R theta phi = true ->
  on_sphere eta R (transform L R theta phi).
Proof.
  intros Heta Pt Pp Hok. unfold on_sphere.
  pose proof (norm2_tolerance L eta R theta phi Heta Pt Pp Hok) as [Hlo Hhi].
  split.
  - etransitivity; [|exact Hlo]. apply Req_le. ring.
  - etransitivity; [exact Hhi|]. apply Req_le. ring.
Qed.

Lemma Rabs_near (u v p : R) :
  Rabs (v - p) <= u * Rabs p -> Rabs v <= (1 + u) * Rabs p.
Proof.
  intros Hv. replace v with ((v - p) + p) by ring.
  eapply Rle_trans; [apply Rabs_triang|]. lra.
Qed.

Lemma pole_bounds (u k r c s c' s' a x y z sg : R) :
  0 <= u -> 0 <= k ->
  Rabs c <= k -> Rabs (s - sg) <= k -> Rabs sg = 1 ->
  Rabs c' <= 1 -> Rabs s' <= 1 ->
  Rabs (a - r * c) <= u * Rabs (r * c) ->
  Rabs (x - a * c') <= u * Rabs (a * c') ->
  Rabs (y - a * s') <= u * Rabs (a * s') ->
  Rabs (z - r * s) <= u * Rabs (r * s) ->
  Rabs x <= (1 + u) * (1 + u) * k * Rabs r
  /\ Rabs y <= (1 + u) * (1 + u) * k * Rabs r
  /\ Rabs (z - sg * r) <= (k + u * (1 + k)) * Rabs r.
Proof.
  intros Hu Hk Hc Hs Hsg Hc' Hs' Ha Hx Hy Hz.
  pose proof (Rabs_pos r) as Hr.
  assert (Ha' : Rabs a <= (1 + u) * k * Rabs r).
  { apply Rabs_near in Ha. rewrite Rabs_mult in Ha.
    eapply Rle_trans; [exact Ha|].
    rewrite Rmult_assoc. apply Rmult_le_compat_l; [lra|].
    rewrite Rmult_comm. apply Rmult_le_compat_r; assumption. }
  assert (Hprod : forall w q, Rabs q <= 1 -> Rabs (w - a * q) <= u * Rabs (a * q) ->
                              Rabs w <= (1 + u) * (1 + u) * k * Rabs r).
  { intros w q Hq Hw. apply Rabs_near in Hw. rewrite Rabs_mult in Hw.
    eapply Rle_trans; [exact Hw|].
    rewrite !Rmult_assoc. apply Rmult_le_compat_l; [lra|].
    apply Rle_trans with (Rabs a * 1).
    - apply Rmult_le_compat_l; [apply Rabs_pos | exact Hq].
    - rewrite Rmult_1_r, <- !Rmult_assoc. exact Ha'. }
  split; [apply (Hprod x c' Hc' Hx)|]. split; [apply (Hprod y s' Hs' Hy)|].
  assert (Hrs : Rabs (r * s - sg * r) <= k * Rabs r).
  { replace (r * s - sg * r) with ((s - sg) * r) by ring.
    rewrite Rabs_mult. apply Rmult_le_compat_r; assumption. }
  assert (Hrs' : Rabs (r * s) <= (1 + k) * Rabs r).
  { replace (r * s) with ((r * s - sg * r) + sg * r) by ring.
    eapply Rle_trans; [apply Rabs_triang|].
    rewrite (Rabs_mult sg r), Hsg. lra. }
  replace (z - sg * r) with ((z - r * s) + (r * s - sg * r)) by ring.
  eapply Rle_trans; [apply Rabs_triang|].
  assert (u * Rabs (r * s) <= u * ((1 + k) * Rabs r))
    by (apply Rmult_le_compat_l; assumption).
  lra.
Qed.

(** The transform at an angle where libm's cosine is small. *)
Lemma transform_near_axis (L : LibM) (kappa sg : R) (R theta phi : float) :
  0 <= kappa -> Rabs sg = 1 ->
  pole_accuracy L kappa sg theta ->
  unit_range L (radians phi) ->
  products_ok L R theta phi = true ->
  near_axis kappa sg R (transform L R theta phi).
Proof.
  intros Hk Hsg [Hc Hs] [Hc' Hs'] Hok. unfold products_ok in Hok.
  apply andb_true_iff in Hok as [Hok H4]. apply andb_true_iff in Hok as [Hok H3].
  apply andb_true_iff in Hok as [H1 H2].
  apply mul_error in H1, H2, H3, H4.
  unfold near_axis, transform, spherical_to_cartesian_custom; simpl.
  apply (pole_bounds u kappa (B2R R)
           (B2R (m_cos L (radians theta))) (B2R (m_sin L (radians theta)))
           (B2R (m_cos L (radians phi))) (B2R (m_sin L (radians phi)))
           (B2R (R * m_cos L (radians theta)))); try assumption.
  pose proof u_pos; lra.
Qed.

(** The coordinates when libm's values are in [-1, 1]. *)
Lemma transform_bounded (L : LibM) (R theta phi : float) :
  unit_range L (radians theta) -> unit_range L (radians phi) ->
  products_ok L R theta phi = true ->
  Rabs (B2R (transform L R theta phi).1.1) <= (1 + u) * (1 + u) * Rabs (B2R R)
  /\ Rabs (B2R (transform L R theta phi).1.2) <= (1 + u) * (1 + u) * Rabs (B2R R)
  /\ Rabs (B2R (transform L R theta phi).2) <= (1 + u) * Rabs (B2R R).
Proof.
  intros [Hc Hs] [Hc' Hs'] Hok. unfold products_ok in Hok.
  apply andb_true_iff in Hok as [Hok H4]. apply andb_true_iff in Hok as [Hok H3].
  apply andb_true_iff in Hok as [H1 H2].
  apply mul_error, Rabs_near in H1, H2, H3, H4.
  unfold transform, spherical_to_cartesian_custom; simpl.
  rewrite Rabs_mult in H1, H2, H3, H4.
  pose proof u_pos as Hu. pose proof (Rabs_pos (B2R R)) as Hr.
  assert (Hle : forall q, Rabs q <= 1 -> (1 + u) * (Rabs (B2R R) * Rabs q) <= (1 + u) * Rabs (B2R R)).
  { intros q Hq. apply Rmult_le_compat_l; [lra|].
    rewrite <- (Rmult_1_r (Rabs (B2R R))) at 2.
    apply Rmult_le_compat_l; assumption. }
  assert (Ha : Rabs (B2R (R * m_cos L (radians theta))) <= (1 + u) * Rabs (B2R R)).
  { eapply Rle_trans; [exact H1|]. apply Hle, Hc. }
  assert (Hprod : forall w q, Rabs q <= 1 ->
            Rabs w <= (1 + u) * (Rabs (B2R (R * m_cos L (radians theta))) * Rabs q) ->
            Rabs w <= (1 + u) * (1 + u) * Rabs (B2R R)).
  { intros w q Hq Hw. eapply Rle_trans; [exact Hw|].
    rewrite Rmult_assoc. apply Rmult_le_compat_l; [lra|].
    apply Rle_trans with (Rabs (B2R (R * m_cos L (radians theta))) * 1).
    - apply Rmult_le_compat_l; [apply Rabs_pos | exact Hq].
    - now rewrite Rmult_1_r. }
  split; [apply (Hprod _ _ Hc' H2)|]. split; [apply (Hprod _ _ Hs' H3)|].
  eapply Rle_trans; [exact H4|]. apply Hle, Hs.
Qed.
End Reals.

(** *** The sample libm *)

Section SampleLibm.
Local Open Scope float_scope.

Lemma eqb_not_finite (x c : float) :
  is_finite x = false -> is_finite c = true -> (abs x =? c) = false.
Proof.
  rewrite !is_finite_spec, FloatAxioms.eqb_spec, abs_spec.
  destruct (Prim2SF x) as [s|s| |s m e]; try discriminate;
    destruct (Prim2SF c) as [s'|s'| |s' m' e']; try discriminate;
    intros _ _; reflexivity.
Qed.

Lemma sample_conforms : conforms Sample64.libm.
Proof.
  split; simpl; unfold Sample64.cos_table, Sample64.sin_table; intros x Hx.
  - rewrite Hx. repeat (destruct (_ =? _)); reflexivity.
  - rewrite Hx. destruct (x <? 0); repeat (destruct (_ =? _)); reflexivity.
  - rewrite !(eqb_not_finite x) by (assumption || reflexivity).
    rewrite Hx. reflexivity.
  - rewrite !(eqb_not_finite x) by (assumption || reflexivity).
    rewrite Hx. destruct (x <? 0); reflexivity.
Qed.
End SampleLibm.

(** *** Real values of given doubles *)

Section Evaluation.
Local Open Scope R_scope.

Lemma powerRZ_2_neg (p : positive) : powerRZ 2 (Zneg p) = / IZR (2 ^ Zpos p).
Proof.
  change (Zneg p) with (- Zpos p)%Z.
  rewrite powerRZ_neg', powerRZ_2_nonneg by lia. reflexivity.
Qed.
End Evaluation.

(** The real value of each double of the goal, as a quotient of
    integers. *)
Ltac real_values :=
  repeat match goal with
         | |- context [B2R ?c] =>
             let v := eval vm_compute in (Prim2SF c) in
             change (B2R c) with (SF2R v)
         end;
  unfold SF2R, u;
  rewrite ?powerRZ_2_neg, ?powerRZ_2_nonneg by lia;
  repeat match goal with
         | |- context [IZR (2 ^ ?n)] =>
             let v := eval vm_compute in (2 ^ n)%Z in
             change (2 ^ n)%Z with v
         end.

Section SampleValues.
Local Open Scope R_scope.

Lemma sample_radians :
  radians 30 = Sample64.t30 /\ radians 45 = Sample64.t45 /\ radians 90 = Sample64.t90.
Proof. repeat split; vm_compute; reflexivity. Qed.

(** The sample libm satisfies the Pythagorean identity up to [u] at
    every finite argument: at the three tabulated angles by its values,
    and elsewhere its cosine and sine are 1 and 0. *)
Lemma sample_pythagorean (t : float) :
  is_finite t = true -> pythagorean Sample64.libm u t.
Proof.
  intros Ht.
  unfold pythagorean; simpl. unfold Sample64.cos_table, Sample64.sin_table.
  rewrite Ht.
  destruct (abs t =? Sample64.t30)%float;
    [|destruct (abs t =? Sample64.t45)%float;
      [|destruct (abs t =? Sample64.t90)%float]];
    destruct (t <? 0)%float; real_values; apply Rabs_le; split; lra.
Qed.

Lemma sample_unit_range (t : float) : unit_range Sample64.libm t.
Proof.
  unfold unit_range; simpl. unfold Sample64.cos_table, Sample64.sin_table.
  destruct (abs t =? Sample64.t30)%float;
    [|destruct (abs t =? Sample64.t45)%float;
      [|destruct (abs t =? Sample64.t90)%float; [|destruct (is_finite t)]]];
    destruct (t <? 0)%float; real_values; split; apply Rabs_le; split; lra.
Qed.

Lemma sample_north : pole_accuracy Sample64.libm u 1 90.
Proof.
  unfold pole_accuracy. real_values. split; apply Rabs_le; split; lra.
Qed.

Lemma sample_south : pole_accuracy Sample64.libm u (-1) (-90).
Proof.
  unfold pole_accuracy. real_values. split; apply Rabs_le; split; lra.
Qed.

Lemma u_unit : 0 <= u <= 1.
Proof. pose proof u_pos. pose proof u_small. lra. Qed.
End SampleValues.

(** *** Angles that are not finite *)

Section NotFinite.
Local Open Scope float_scope.

Lemma transform_theta_not_finite (L : LibM) (R theta phi : float) :
  conforms L -> is_finite (radians theta) = false ->
  transform L R theta phi = (nan, nan, nan).
Proof.
  intros HL Hr. unfold transform, spherical_to_cartesian_custom; simpl.
  rewrite (is_nan_eq _ (cos_not_finite L HL _ Hr)).
  rewrite (is_nan_eq _ (sin_not_finite L HL _ Hr)).
  rewrite !mul_nan_r, !mul_nan_l. reflexivity.
Qed.

Lemma transform_phi_not_finite (L : LibM) (R theta phi : float) :
  conforms L -> is_finite (radians phi) = false ->
  (transform L R theta phi).1.1 = nan /\ (transform L R theta phi).1.2 = nan.
Proof.
  intros HL Hr. unfold transform, spherical_to_cartesian_custom; simpl.
  rewrite (is_nan_eq _ (cos_not_finite L HL _ Hr)).
  rewrite (is_nan_eq _ (sin_not_finite L HL _ Hr)).
  rewrite !mul_nan_r. split; reflexivity.
Qed.

(** A NaN is within no tolerance of any number. *)
Lemma close_nan (b tol : float) : close nan b tol = false.
Proof.
  unfold close. rewrite leb_spec, abs_spec, sub_spec.
  change (Prim2SF nan) with S754_nan. reflexivity.
Qed.
End NotFinite.
End Binary64RFacts.

(** ** The norm of the point on doubles *)

(** The claim of C2 fails on doubles at an angle that is an infinity:
    for every libm that conforms the three coordinates are NaN, so is the
    squared norm computed from them, and a NaN is within no tolerance of
    [R * R]. *)
Lemma C2_counterexample :
  (forall L : Binary64.LibM, Binary64.conforms L ->
     Binary64.transform L 5 infinity 0 = (nan, nan, nan))
  /\ Binary64R.fnorm2 (nan, nan, nan) = nan
  /\ (forall tol : float,
        Binary64R.close (Binary64R.fnorm2 (nan, nan, nan)) (5 * 5) tol = false)
  /\ Binary64.transform Sample64.libm 5 infinity 0 = (nan, nan, nan).
Proof.
  split; [|split; [reflexivity|split; [|reflexivity]]].
  - intros L HL. apply Binary64RFacts.transform_theta_not_finite;
      solve [assumption | reflexivity].
  - intros tol. apply Binary64RFacts.close_nan.
Qed.

(** C2, amended: on doubles, when none of the four products of the
    transform overflows or underflows and libm's cosine and sine satisfy
    the Pythagorean identity up to [eta] at the two angles, the squared
    norm of the returned point is R * R up to the factor
    (1 +- u)^4 (1 +- eta)^2, with u = 2^-51. *)
Theorem C2_norm_tolerance (L : Binary64.LibM) (eta : R) (R theta phi : float) :
  (0 <= eta <= 1)%R ->
  Binary64R.pythagorean L eta (Binary64.radians theta) ->
  Binary64R.pythagorean L eta (Binary64.radians phi) ->
  Binary64R.products_ok L R theta phi = true ->
  Binary64R.on_sphere eta R (Binary64.transform L R theta phi).
Proof. apply Binary64RFacts.norm2_on_sphere. Qed.

(** C2 at R = 10, theta = 30, phi = 45 with the sample libm. *)
Lemma C2_norm_tolerance_witness :
  Binary64R.on_sphere Binary64R.u 10 (Binary64.transform Sample64.libm 10 30 45).
Proof.
  apply (C2_norm_tolerance Sample64.libm Binary64R.u 10 30 45).
  - apply Binary64RFacts.u_unit.
  - apply Binary64RFacts.sample_pythagorean. vm_compute; reflexivity.
  - apply Binary64RFacts.sample_pythagorean. vm_compute; reflexivity.
  - vm_compute; reflexivity.
Defined.

(** ** The poles on doubles *)




(** ** Paired points on doubles *)




(** ** Calls of the transform *)

Module WarningsFacts.
Import Binary64 Binary64Facts.
Local Open Scope float_scope.

Lemma returns_ret {A : Type} (v : A) : Warnings.returns (mret v) v.
Proof. intros w. reflexivity. Qed.

Lemma returns_bind {A B : Type} (c : Warnings.W A) (k : A -> Warnings.W B) v v' :
  Warnings.returns c v -> Warnings.returns (k v) v' -> Warnings.returns (c ≫= k) v'.
Proof.
  intros Hc Hk w. unfold mbind, Warnings.W_bind. specialize (Hc w).
  destruct (c w) as [x w']. simpl in Hc. subst x. apply Hk.
Qed.

Lemma silent_ret {A : Type} (v : A) : Warnings.silent (mret v) v.
Proof. intros w. reflexivity. Qed.

Lemma silent_bind {A B : Type} (c : Warnings.W A) (k : A -> Warnings.W B) v v' :
  Warnings.silent c v -> Warnings.silent (k v) v' -> Warnings.silent (c ≫= k) v'.
Proof.
  intros Hc Hk w. unfold mbind, Warnings.W_bind. rewrite (Hc w). apply Hk.
Qed.

Lemma returns_when b c : Warnings.returns c tt -> Warnings.returns (Warnings.when b c) tt.
Proof. intros Hc. destruct b; [exact Hc | apply returns_ret]. Qed.

Lemma returns_warn text lineno : Warnings.returns (Warnings.warn text lineno) tt.
Proof. intros w. unfold Warnings.warn. now destruct (bool_decide _). Qed.

Lemma returns_checked_mul name lineno a b :
  Warnings.returns (Warnings.checked_mul name lineno a b) (a * b).
Proof.
  unfold Warnings.checked_mul.
  eapply returns_bind; [apply returns_when, returns_warn|].
  eapply returns_bind; [apply returns_when, returns_warn|].
  apply returns_ret.
Qed.

Lemma returns_cos L lineno x : Warnings.returns (Warnings.np_cos L lineno x) (m_cos L x).
Proof.
  unfold Warnings.np_cos.
  eapply returns_bind; [apply returns_when, returns_warn | apply returns_ret].
Qed.

Lemma returns_sin L lineno x : Warnings.returns (Warnings.np_sin L lineno x) (m_sin L x).
Proof.
  unfold Warnings.np_sin.
  eapply returns_bind; [apply returns_when, returns_warn | apply returns_ret].
Qed.

Ltac returns_step :=
  lazymatch goal with
  | |- Warnings.returns (Warnings.np_radians _ _) _ => apply returns_checked_mul
  | |- Warnings.returns (Warnings.multiply _ _ _) _ => apply returns_checked_mul
  | |- Warnings.returns (Warnings.np_cos _ _ _) _ => apply returns_cos
  | |- Warnings.returns (Warnings.np_sin _ _ _) _ => apply returns_sin
  end.

(** The value is that of the transform on doubles, in every state. *)
Lemma returns_transform L R theta phi :
  Warnings.returns (Warnings.spherical_to_cartesian_custom L R theta phi)
          (transform L R theta phi).
Proof.
  unfold Warnings.spherical_to_cartesian_custom.
  repeat (eapply returns_bind; [returns_step|]).
  apply returns_ret.
Qed.

Lemma is_infinity_finite x : is_finite x = true -> is_infinity x = false.
Proof.
  unfold is_finite. destruct (is_infinity x); [|reflexivity].
  rewrite orb_true_r. discriminate.
Qed.

Lemma is_nan_finite x : is_nan x = true -> is_finite x = false.
Proof. unfold is_finite. now intros ->. Qed.

Lemma mul_finite_inv a b :
  is_finite (a * b) = true -> is_finite a = true /\ is_finite b = true.
Proof.
  rewrite !is_finite_spec, mul_spec. unfold SF64mul.
  destruct (Prim2SF a) as [s|s| |s m e], (Prim2SF b) as [s'|s'| |s' m' e'];
    try (intros _; split; reflexivity); intros H; discriminate H.
Qed.

Lemma silent_checked_mul name lineno a b :
  is_finite (a * b) = true -> Warnings.silent (Warnings.checked_mul name lineno a b) (a * b).
Proof.
  intros H. destruct (mul_finite_inv a b H) as [Ha Hb].
  unfold Warnings.checked_mul, Warnings.invalid_mul, Warnings.overflow_mul.
  rewrite (is_infinity_finite _ Ha), (is_infinity_finite _ Hb),
    (is_infinity_finite _ H), !andb_false_r.
  intros w. reflexivity.
Qed.

Lemma silent_cos L lineno x :
  is_finite x = true -> Warnings.silent (Warnings.np_cos L lineno x) (m_cos L x).
Proof.
  intros H w. unfold Warnings.np_cos. now rewrite (is_infinity_finite _ H).
Qed.

Lemma silent_sin L lineno x :
  is_finite x = true -> Warnings.silent (Warnings.np_sin L lineno x) (m_sin L x).
Proof.
  intros H w. unfold Warnings.np_sin. now rewrite (is_infinity_finite _ H).
Qed.

(** libm Warnings.returns a finite number on finite arguments only. *)
Lemma cos_finite_inv L x :
  conforms L -> is_finite (m_cos L x) = true -> is_finite x = true.
Proof.
  intros HL H. destruct (is_finite x) eqn:E; [reflexivity|].
  rewrite (is_nan_finite _ (cos_not_finite L HL x E)) in H. discriminate.
Qed.

Lemma sin_finite_inv L x :
  conforms L -> is_finite (m_sin L x) = true -> is_finite x = true.
Proof.
  intros HL H. destruct (is_finite x) eqn:E; [reflexivity|].
  rewrite (is_nan_finite _ (sin_not_finite L HL x E)) in H. discriminate.
Qed.

Ltac silent_step :=
  lazymatch goal with
  | |- Warnings.silent (Warnings.np_radians _ _) _ => apply silent_checked_mul; assumption
  | |- Warnings.silent (Warnings.multiply _ _ _) _ => apply silent_checked_mul; assumption
  | |- Warnings.silent (Warnings.np_cos _ _ _) _ => apply silent_cos; assumption
  | |- Warnings.silent (Warnings.np_sin _ _ _) _ => apply silent_sin; assumption
  end.

(** When the three coordinates are finite, no operation of the
    transform gives a warning. *)
Lemma silent_transform L R theta phi :
  conforms L -> Warnings.finite3 (transform L R theta phi) = true ->
  Warnings.silent (Warnings.spherical_to_cartesian_custom L R theta phi)
         (transform L R theta phi).
Proof.
  intros HL H. unfold Warnings.finite3 in H.
  apply andb_true_iff in H as [H Hz]. apply andb_true_iff in H as [Hx Hy].
  unfold transform, spherical_to_cartesian_custom in Hx, Hy, Hz.
  simpl in Hx, Hy, Hz.
  destruct (mul_finite_inv _ _ Hx) as [Ha Hc'].
  destruct (mul_finite_inv _ _ Hy) as [_ Hs'].
  destruct (mul_finite_inv _ _ Ha) as [_ Hc].
  pose proof (cos_finite_inv L _ HL Hc) as Ht.
  pose proof (cos_finite_inv L _ HL Hc') as Hp.
  unfold Warnings.spherical_to_cartesian_custom.
  repeat (eapply silent_bind; [silent_step|]).
  apply silent_ret.
Qed.
End WarningsFacts.




(** ** The size of the coordinates on doubles *)

(** X17: on doubles, when libm's cosine and sine at the two angles are
    in [-1, 1] and no product overflows or underflows, |x| and |y| are
    at most (1 + u)^2 |R| and |z| at most (1 + u) |R|, with u = 2^-51:
    no coordinate exceeds the radius by more than the rounding of its
    products. *)
Theorem X17_coordinates_bounded (L : Binary64.LibM) (R theta phi : float) :
  Binary64R.unit_range L (Binary64.radians theta) ->
  Binary64R.unit_range L (Binary64.radians phi) ->
  Binary64R.products_ok L R theta phi = true ->
  (Rabs (Binary64R.B2R (Binary64.transform L R theta phi).1.1)
   <= (1 + Binary64R.u) * (1 + Binary64R.u) * Rabs (Binary64R.B2R R)
   /\ Rabs (Binary64R.B2R (Binary64.transform L R theta phi).1.2)
      <= (1 + Binary64R.u) * (1 + Binary64R.u) * Rabs (Binary64R.B2R R)
   /\ Rabs (Binary64R.B2R (Binary64.transform L R theta phi).2)
      <= (1 + Binary64R.u) * Rabs (Binary64R.B2R R))%R.
Proof. apply Binary64RFacts.transform_bounded. Qed.

(** X17 at R = 10, theta = 30, phi = 45 with the sample libm. *)
Lemma X17_coordinates_bounded_witness :
  (Rabs (Binary64R.B2R (Binary64.transform Sample64.libm 10 30 45).2)
   <= (1 + Binary64R.u) * Rabs (Binary64R.B2R 10))%R.
Proof.
  destruct (X17_coordinates_bounded Sample64.libm 10 30 45) as (_ & _ & H).
  - apply Binary64RFacts.sample_unit_range.
  - apply Binary64RFacts.sample_unit_range.
  - vm_compute; reflexivity.
  - exact H.
Defined.
